(** * Bayesian belief vectors

    A shallow embedding of the [Bayes] class of [src/bayes.py] and
    [src/bayesian/__init__.py], and of the helpers of the package that the
    verified properties are about.

    Numbers.  The odds of a belief vector are Python numbers.  The class and
    the helpers are embedded over exact rationals in canonical form ([Qc]):
    [+], [*] and [/] are the field operations, [==] is Leibniz equality, and
    a division by zero raises [ZeroDivisionError] as Python's does.  This is
    the arithmetic of the properties that are about exact results, and of
    those that rounding does not touch: which exception a call raises, which
    label it returns, bounds.  Module [py2] embeds the methods that compute
    with the odds a second time, on the numbers of the Python 2 interpreter:
    integers of any size, whose [/] is the floor division, and IEEE doubles,
    which round, underflow and overflow.  There the code is run on given
    odds, and what it does with integers and with very small doubles is
    stated.

    Objects.  A [Bayes] object is a Python list (its odds) carrying a
    [labels] attribute.  The methods that only read [self] are functions into
    the error monad [result]; the methods that assign to [self[:]] are
    computations of the monad [method], which threads the state of [self] and
    keeps it when an exception escapes; where the Python method returns
    [self], the computation returns [tt] and the caller reads the state.
    Odds rows passed to an update are values: a row that is the very object
    being updated is outside the model, and so is what a [defaultdict] row
    keeps of the lookups a cast made in it. *)

From Stdlib Require Import QArith Qcanon Lqa.
From stdpp Require Import gmap strings list fin_maps numbers sorting pretty.
From Corelib Require PrimFloat FloatOps SpecFloat.

Open Scope Qc_scope.

(** ** Exceptions and the two monads *)

Inductive exn : Set :=
| ZeroDivisionError
| KeyError
| ValueError
| IndexError
| OverflowError.

Inductive result (A : Type) : Type :=
| Ok (a : A)
| Raise (e : exn).
Arguments Ok {A} a.
Arguments Raise {A} e.

#[global] Instance result_ret : MRet result := λ A a, Ok a.
#[global] Instance result_bind : MBind result := λ A B f m,
  match m with
  | Ok a => f a
  | Raise e => Raise e
  end.
#[global] Instance result_fmap : FMap result := λ A B f m,
  match m with
  | Ok a => Ok (f a)
  | Raise e => Raise e
  end.

(** ** Built-ins *)

(** [x / y] *)
Definition py_div (x y : Qc) : result Qc :=
  if decide (y = 0) then Raise ZeroDivisionError else Ok (x / y).

(** [sum(l)]: accumulates from [0], left to right. *)
Definition py_sum (l : list Qc) : Qc := fold_left Qcplus l 0.

(** [max(l)]: the running maximum is replaced only by a strictly greater
    item; [ValueError] on an empty sequence. *)
Definition py_max (l : list Qc) : result Qc :=
  match l with
  | [] => Raise ValueError
  | x :: xs => Ok (fold_left (λ m i, if decide (m < i) then i else m) xs x)
  end.

(** [l.index(x)]: the first position holding a value equal to [x]. *)
Fixpoint py_index (l : list Qc) (x : Qc) : result nat :=
  match l with
  | [] => Raise ValueError
  | y :: ys => if decide (y = x) then Ok 0%nat else S <$> py_index ys x
  end.

(** [l[i]] for a position [i] *)
Definition py_getitem {A} (l : list A) (i : nat) : result A :=
  match l !! i with
  | Some a => Ok a
  | None => Raise IndexError
  end.

(** [x or y] on label lists: [None] and the empty list are falsy. *)
Definition py_or (x : option (list string)) (y : list string) : list string :=
  match x with
  | Some (l :: ls) => l :: ls
  | _ => y
  end.

(** [sorted(keys)] on strings *)
Definition string_le (s t : string) : Prop := String.leb s t.
#[global] Instance string_le_dec : RelDecision string_le :=
  λ s t, Is_true_dec (String.leb s t).
Definition sorted (keys : list string) : list string := merge_sort string_le keys.

(** [map(str, range(n))] *)
Definition default_labels (n : nat) : list string := pretty <$> seq 0 n.

(** ** Dictionaries *)

(** [collections.defaultdict]: a missed lookup inserts and returns what the
    factory produces. *)
Record defaultdict (V : Type) : Type := {
  default_factory : V;
  dd_items : gmap string V
}.
Arguments default_factory {V} d.
Arguments dd_items {V} d.

Definition dd_setitem {V} (d : defaultdict V) (k : string) (v : V) : defaultdict V :=
  {| default_factory := default_factory d; dd_items := <[k := v]> (dd_items d) |}.

Definition dd_getitem {V} (d : defaultdict V) (k : string) : V * defaultdict V :=
  match dd_items d !! k with
  | Some v => (v, d)
  | None => (default_factory d, dd_setitem d k (default_factory d))
  end.

(** A mapping from label to odds: a plain [dict] or a [defaultdict]. *)
Inductive pydict : Type :=
| Dict (m : gmap string Qc)
| DefaultDict (d : defaultdict Qc).

Definition keys (d : pydict) : list string :=
  match d with
  | Dict m => (map_to_list m).*1
  | DefaultDict d => (map_to_list (dd_items d)).*1
  end.

(** [d[k]], with the dictionary as the access leaves it *)
Definition getitem (d : pydict) (k : string) : result Qc * pydict :=
  match d with
  | Dict m =>
      match m !! k with
      | Some v => (Ok v, d)
      | None => (Raise KeyError, d)
      end
  | DefaultDict dd => let '(v, dd') := dd_getitem dd k in (Ok v, DefaultDict dd')
  end.

(** [[d[label] for label in labels]] *)
Fixpoint getitems (d : pydict) (labels : list string) : result (list Qc) :=
  match labels with
  | [] => Ok []
  | label :: rest =>
      let '(r, d') := getitem d label in
      v ← r; vs ← getitems d' rest; Ok (v :: vs)
  end.

(** ** The class [Bayes] (the code both files share) *)

Record Bayes : Type := {
  odds : list Qc;
  labels : list string
}.

(** What a caller may pass where odds are expected. *)
Inductive odds_like : Type :=
| Seq (l : list Qc)
| Mapping (d : pydict)
| Belief (b : Bayes).

(** The arguments of [Bayes(value, labels)] for a [value] that is given: a
    dictionary, a sequence of [(label, odds)] tuples, or a sequence of odds
    (a list, a tuple, another [Bayes], and, when labels are passed, a
    generator).  The tuples are split only when no labels are passed; with
    labels the tuples themselves would become the items of the list, which
    has no numeric reading, so that combination is not represented.  The
    default labels are the list that [map] returns in Python 2. *)
Inductive init_args : Type :=
| InitDict (value : pydict) (labels : option (list string))
| InitPairs (value : list (string * Qc))
| InitSeq (value : list Qc) (labels : option (list string)).

Definition __init__ (args : init_args) : result Bayes :=
  match args with
  | InitDict value labels =>
      let labels := py_or labels (sorted (keys value)) in
      value ← getitems value labels;
      Ok {| odds := value; labels := py_or (Some labels) (default_labels (length value)) |}
  | InitPairs value =>
      Ok {| odds := value.*2;
            labels := py_or (Some value.*1) (default_labels (length value)) |}
  | InitSeq value labels =>
      Ok {| odds := value; labels := py_or labels (default_labels (length value)) |}
  end.

Definition _cast (self : Bayes) (other : odds_like) : result Bayes :=
  match other with
  | Belief b => Ok b
  | Seq l => __init__ (InitSeq l (Some (labels self)))
  | Mapping d => __init__ (InitDict d (Some (labels self)))
  end.

Definition opposite (self : Bayes) : result Bayes :=
  if decide (0 ∈ odds self)
  then _cast self (Seq ((λ i, if decide (i = 0) then 1 else 0) <$> odds self))
  else l ← mapM (λ i, py_div 1 i) (odds self); _cast self (Seq l).

Definition normalized (self : Bayes) : result Bayes :=
  let total := py_sum (odds self) in
  l ← mapM (λ i, py_div i total) (odds self); _cast self (Seq l).

Definition __mul__ (self : Bayes) (other : odds_like) : result Bayes :=
  other ← _cast self other;
  _cast self (Seq (zip_with Qcmult (odds self) (odds other))).

Definition __div__ (self : Bayes) (other : odds_like) : result Bayes :=
  other ← _cast self other;
  other ← opposite other;
  __mul__ self (Belief other).

Definition most_likely (self : Bayes) (cutoff : Qc) : result (option string) :=
  normalized ← normalized self;
  max_value ← py_max (odds normalized);
  if decide (cutoff < max_value)
  then i ← py_index (odds normalized) max_value;
       label ← py_getitem (labels self) i;
       Ok (Some label)
  else Ok None.

(** A subscript of [self[i]]: a label (a [str]) or a position. *)
Inductive subscript : Type :=
| Label (s : string)
| Position (i : Z).

(** The place a position denotes in a list of [n] items: a negative position
    counts from the end; [IndexError] outside the list. *)
Definition py_position (n : nat) (i : Z) : result nat :=
  let i := if decide (i < 0)%Z then (i + Z.of_nat n)%Z else i in
  if decide (0 ≤ i < Z.of_nat n)%Z then Ok (Z.to_nat i) else Raise IndexError.

(** [labels.index(x)] *)
Fixpoint labels_index (labels : list string) (x : string) : result nat :=
  match labels with
  | [] => Raise ValueError
  | y :: ys => if decide (y = x) then Ok 0%nat else S <$> labels_index ys x
  end.

(** [list.__getitem__(self, i)] for a position [i] *)
Definition list_getitem (self : Bayes) (i : Z) : result Qc :=
  p ← py_position (length (odds self)) i; py_getitem (odds self) p.

Definition __getitem__ (self : Bayes) (i : subscript) : result Qc :=
  match i with
  | Label s => k ← labels_index (labels self) s; list_getitem self (Z.of_nat k)
  | Position i => list_getitem self i
  end.

Definition is_likely (self : Bayes) (label : subscript)
    (minimum_probability : Qc) : result bool :=
  normalized ← normalized self;
  p ← __getitem__ normalized label;
  Ok (bool_decide (minimum_probability < p)).

(** ** Methods that mutate [self] *)

Definition method (A : Type) : Type := Bayes → result A * Bayes.

#[global] Instance method_ret : MRet method := λ A a self, (Ok a, self).
#[global] Instance method_bind : MBind method := λ A B f m self,
  match m self with
  | (Ok a, self') => f a self'
  | (Raise e, self') => (Raise e, self')
  end.

(** Evaluate an expression that only reads [self]. *)
Definition reading {A} (f : Bayes → result A) : method A := λ self, (f self, self).

(** [self[:] = value]: the items are replaced, the attributes stay. *)
Definition assign_slice (value : Bayes) : method unit := λ self,
  (Ok tt, {| odds := odds value; labels := labels self |}).

(** [list.__setitem__(self, i, value)] for a position [i] *)
Definition list_setitem (i : Z) (value : Qc) : method unit := λ self,
  match py_position (length (odds self)) i with
  | Ok p => (Ok tt, {| odds := <[p := value]> (odds self); labels := labels self |})
  | Raise e => (Raise e, self)
  end.

Definition __setitem__ (i : subscript) (value : Qc) : method unit :=
  match i with
  | Label s =>
      k ← reading (λ self, labels_index (labels self) s);
      list_setitem (Z.of_nat k) value
  | Position i => list_setitem i value
  end.

Section Updating.
(** The two files define [update] differently and the loops over it
    identically. *)
Variable update : odds_like → method unit.

Fixpoint update_from_events (events : list string)
    (events_odds : gmap string odds_like) : method unit :=
  match events with
  | [] => mret tt
  | event :: events =>
      match events_odds !! event with
      | Some row => update row
      | None => mret tt
      end;;
      update_from_events events events_odds
  end.

Definition test_step (result : bool) (chance : odds_like) : method unit :=
  if result then update chance
  else chance ← reading (λ self, _cast self chance ≫= opposite);
       update (Belief chance).

Fixpoint for_each_test (pairs : list (bool * odds_like)) : method unit :=
  match pairs with
  | [] => mret tt
  | (result, chance) :: pairs => test_step result chance;; for_each_test pairs
  end.

Definition update_from_tests (tests_results : list bool)
    (odds : list odds_like) : method unit :=
  for_each_test (zip tests_results odds).

(** One call of [update] per row, in order. *)
Fixpoint update_each (rows : list odds_like) : method unit :=
  match rows with
  | [] => mret tt
  | row :: rows => update row;; update_each rows
  end.
End Updating.

(** [src/bayes.py]: the update that does not normalize. *)
Module bayes.
Definition update (event : odds_like) : method unit :=
  product ← reading (λ self, event ← _cast self event; __mul__ self (Belief event));
  assign_slice product.

Definition update_from_events := update_from_events update.
Definition update_from_tests := update_from_tests update.
Definition update_each := update_each update.
End bayes.

(** [src/bayesian/__init__.py]: the update that normalizes, the table of
    event odds and the Gaussian likelihood. *)
Module bayesian.
(** [gaussian_distribution]: the mean and the variance, with [n - 1] for
    divisor, of a list of values.  Over exact arithmetic the two divisions
    are all that can raise; on doubles [** 2] raises [OverflowError] for a
    difference whose square is out of range. *)
Definition gaussian_distribution (values : list Qc) : result (Qc * Qc) :=
  let n := Qc_of_Z (Z.of_nat (length values)) in
  mean ← py_div (py_sum values) n;
  variance ← py_div (py_sum ((λ value, (value - mean) ^ 2) <$> values)) (n - 1);
  Ok (mean, variance).

(** [properties_instances[property].append(value)] for every property of
    one record of a population; [properties_instances] is a
    [defaultdict(list)]. *)
Definition collect (properties_instances : gmap string (list Qc))
    (properties : gmap string Qc) : gmap string (list Qc) :=
  foldl (λ properties_instances '(property, value),
           <[property := default [] (properties_instances !! property) ++ [value]]>
             properties_instances)
    properties_instances (map_to_list properties).

(** [properties_distributions[property][class_] = gaussian_distribution(instances)]
    for every property collected for [class_]; [properties_distributions] is
    a [defaultdict(dict)].  An exception ends the loops. *)
Definition distribute (class_ : string)
    (properties_distributions : result (gmap string (gmap string (Qc * Qc))))
    (properties_instances : gmap string (list Qc)) :
    result (gmap string (gmap string (Qc * Qc))) :=
  foldl (λ acc '(property, instances),
           properties_distributions ← acc;
           distribution ← gaussian_distribution instances;
           Ok (<[property := <[class_ := distribution]>
                               (default ∅ (properties_distributions !! property))]>
                 properties_distributions))
    properties_distributions (map_to_list properties_instances).

Definition properties_distributions
    (classes_population : gmap string (list (gmap string Qc))) :
    result (gmap string (gmap string (Qc * Qc))) :=
  foldl (λ acc '(class_, population), distribute class_ acc (foldl collect ∅ population))
    (Ok ∅) (map_to_list classes_population).

Section Gaussian.
(** [math.exp], [math.sqrt] and [math.pi] *)
Variables (exp sqrt : Qc → Qc) (pi : Qc).

Definition gaussian_probability (sample : Qc) (distribution : Qc * Qc) : result Qc :=
  let '(mean, variance) := distribution in
  if decide (variance = 0)
  then Ok (if decide (sample ≠ mean) then 0 else 1)
  else e ← py_div ((sample - mean) ^ 2) (- (2) * variance);
       py_div (exp e) (sqrt (2 * pi * variance)).
End Gaussian.

Definition small : Qc := Q2Qc 0.000001.

(** [defaultdict(lambda: defaultdict(lambda: small))] *)
Definition new_events_odds : defaultdict (defaultdict Qc) :=
  {| default_factory := {| default_factory := small; dd_items := ∅ |};
     dd_items := ∅ |}.

(** [events_odds[event][class_] += 1]: the row is fetched (and created when
    the event is new), its entry is read (and created when the class is
    new) and written back incremented; the row is an object shared with
    the table, so the table sees the write. *)
Definition increment (class_ : string)
    (events_odds : defaultdict (defaultdict Qc)) (event : string) :
    defaultdict (defaultdict Qc) :=
  let '(row, events_odds) := dd_getitem events_odds event in
  let '(count, row) := dd_getitem row class_ in
  dd_setitem events_odds event (dd_setitem row class_ (count + 1)).

Section Events.
Context {instance : Type}.

Definition extract_events_odds (classes_instances : gmap string (list instance))
    (event_extractor : instance → list string) : defaultdict (defaultdict Qc) :=
  foldl (λ events_odds '(class_, instances),
           foldl (λ events_odds instance,
                    foldl (increment class_) events_odds (event_extractor instance))
             events_odds instances)
    new_events_odds (map_to_list classes_instances).
End Events.

(** [events_odds[event][class_]], as a caller reads the table *)
Definition table_entry (events_odds : defaultdict (defaultdict Qc))
    (event class_ : string) : Qc :=
  (dd_getitem (dd_getitem events_odds event).1 class_).1.

Definition update (event : odds_like) : method unit :=
  product ← reading (λ self,
    event ← _cast self event; product ← __mul__ self (Belief event);
    normalized product);
  assign_slice product.

Definition update_from_events := update_from_events update.
Definition update_from_tests := update_from_tests update.
Definition update_each := update_each update.

(** The table as [update_from_events] reads it: [event in events_odds] and
    [events_odds[event]] on an event the table holds. *)
Definition rows_of (events_odds : defaultdict (defaultdict Qc)) : gmap string odds_like :=
  (λ row, Mapping (DefaultDict row)) <$> dd_items events_odds.

Section Classify.
Context {instance : Type}.

Definition classify (instance_ : instance)
    (classes_instances : gmap string (list instance))
    (extractor : instance → list string) : result (option string) :=
  let model := extract_events_odds classes_instances extractor in
  b ← __init__ (InitDict (Dict ((λ _, 1) <$> classes_instances)) None);
  let '(r, b) := update_from_events (extractor instance_) (rows_of model) b in
  _ ← r; most_likely b 0.
End Classify.

Section Classify_normal.
Variables (exp sqrt : Qc → Qc) (pi : Qc).

(** [{class_: gaussian_probability(value, distribution) for class_,
    distribution in classes_distributions.items()}] *)
Definition likelihoods (value : Qc) (classes_distributions : gmap string (Qc * Qc)) :
    result (gmap string Qc) :=
  list_to_map <$>
    mapM (λ '(class_, distribution),
            p ← gaussian_probability exp sqrt pi value distribution; Ok (class_, p))
      (map_to_list classes_distributions).

(** The loop of [classify_normal] over the items of the instance;
    [distributions[property]] is the empty dictionary for a property the
    training data never had. *)
Fixpoint for_each_property (distributions : gmap string (gmap string (Qc * Qc)))
    (items : list (string * Qc)) : method unit :=
  match items with
  | [] => mret tt
  | (property, value) :: items =>
      row ← reading (λ _, likelihoods value (default ∅ (distributions !! property)));
      update (Mapping (Dict row));;
      for_each_property distributions items
  end.

Definition classify_normal (instance_ : gmap string Qc)
    (classes_instances : gmap string (list (gmap string Qc))) : result (option string) :=
  distributions ← properties_distributions classes_instances;
  b ← __init__ (InitDict (Dict ((λ _, Q2Qc 0.5) <$> classes_instances)) None);
  let '(r, b) := for_each_property distributions (map_to_list instance_) b in
  _ ← r; most_likely b 0.
End Classify_normal.
End bayesian.

(** ** The class on the numbers of Python 2

    The methods of the class that compute with the odds, once more, on the
    numbers the interpreter has: an [int] (or [long]) is an integer of any
    size and a [float] an IEEE double.  [+] and [*] stay in the integers on
    two integers and otherwise convert to doubles, [/] on two integers is the
    floor division, and [float(x)] of an integer with no double near it
    raises [OverflowError].  The rows are sequences and vectors, and the
    state of [self] is passed explicitly. *)
Module py2.
Import PrimFloat FloatOps SpecFloat.

Inductive number : Set :=
| Int (z : Z)
| Float (f : float).

(** [float(z)] *)
Definition float_of_int (z : Z) : result float :=
  let f := SF2Prim (binary_normalize prec emax z 0 false) in
  if is_infinity f then Raise OverflowError else Ok f.

(** [float(x)], which is also how an operand is converted where the other
    one is a [float]. *)
Definition to_float (x : number) : result float :=
  match x with
  | Int z => float_of_int z
  | Float f => Ok f
  end.

(** The order of an [int] and a [float], which Python decides on the exact
    values; there is none with a NaN. *)
Definition compare_int_float (z : Z) (f : float) : option comparison :=
  match Prim2SF f with
  | S754_zero _ => Some (z ?= 0)%Z
  | S754_infinity false => Some Lt
  | S754_infinity true => Some Gt
  | S754_nan => None
  | S754_finite s m e =>
      let n := if s then Z.neg m else Z.pos m in
      if decide (0 ≤ e)%Z then Some (z ?= n * 2 ^ e)%Z
      else Some (z * 2 ^ (- e) ?= n)%Z
  end.

(** [x == y] *)
Definition py_eq (x y : number) : bool :=
  match x, y with
  | Int a, Int b => bool_decide (a = b)
  | Float a, Float b => (a =? b)%float
  | Int a, Float b => bool_decide (compare_int_float a b = Some Eq)
  | Float a, Int b => bool_decide (compare_int_float b a = Some Eq)
  end.

(** [x > y] *)
Definition py_gt (x y : number) : bool :=
  match x, y with
  | Int a, Int b => bool_decide (b < a)%Z
  | Float a, Float b => (b <? a)%float
  | Int a, Float b => bool_decide (compare_int_float a b = Some Gt)
  | Float a, Int b => bool_decide (compare_int_float b a = Some Lt)
  end.

(** [x + y] *)
Definition py_add (x y : number) : result number :=
  match x, y with
  | Int a, Int b => Ok (Int (a + b))
  | _, _ => a ← to_float x; b ← to_float y; Ok (Float (a + b)%float)
  end.

(** [x * y] *)
Definition py_mul (x y : number) : result number :=
  match x, y with
  | Int a, Int b => Ok (Int (a * b))
  | _, _ => a ← to_float x; b ← to_float y; Ok (Float (a * b)%float)
  end.

(** [x / y]: the floor of the quotient on two integers. *)
Definition py_div (x y : number) : result number :=
  match x, y with
  | Int a, Int b =>
      if decide (b = 0)%Z then Raise ZeroDivisionError else Ok (Int (a `div` b))
  | _, _ =>
      a ← to_float x; b ← to_float y;
      if (b =? 0)%float then Raise ZeroDivisionError else Ok (Float (a / b)%float)
  end.

(** [sum(l)]: accumulates from the integer [0], left to right. *)
Definition py_sum (l : list number) : result number :=
  foldl (λ total i, total ← total; py_add total i) (Ok (Int 0)) l.

(** [max(l)] *)
Definition py_max (l : list number) : result number :=
  match l with
  | [] => Raise ValueError
  | x :: xs => Ok (foldl (λ m i, if py_gt i m then i else m) x xs)
  end.

Definition is_nan (x : number) : bool :=
  match x with
  | Int _ => false
  | Float f => PrimFloat.is_nan f
  end.

(** [l.index(x)] for the [x] that [max(l)] returned: the first item that is
    [x] itself or equals it.  A NaN equals nothing, but [max] returns one
    only from the head of the list, where [index] finds the very object. *)
Fixpoint py_index (l : list number) (x : number) : result nat :=
  match l with
  | [] => Raise ValueError
  | y :: ys =>
      if py_eq y x || (is_nan y && is_nan x) then Ok 0%nat
      else S <$> py_index ys x
  end.

Record Bayes : Type := {
  odds : list number;
  labels : list string
}.

Inductive odds_like : Type :=
| Seq (l : list number)
| Belief (b : Bayes).

(** [Bayes(value, labels)] for a sequence of [(label, odds)] tuples without
    labels and for a sequence of odds. *)
Inductive init_args : Type :=
| InitPairs (value : list (string * number))
| InitSeq (value : list number) (labels : option (list string)).

Definition __init__ (args : init_args) : Bayes :=
  match args with
  | InitPairs value =>
      {| odds := value.*2;
         labels := py_or (Some value.*1) (default_labels (length value)) |}
  | InitSeq value labels =>
      {| odds := value; labels := py_or labels (default_labels (length value)) |}
  end.

Definition _cast (self : Bayes) (other : odds_like) : Bayes :=
  match other with
  | Belief b => b
  | Seq l => __init__ (InitSeq l (Some (labels self)))
  end.

Definition opposite (self : Bayes) : result Bayes :=
  if existsb (λ i, py_eq i (Int 0)) (odds self)
  then Ok (_cast self (Seq ((λ i, if py_eq i (Int 0) then Int 1 else Int 0) <$> odds self)))
  else l ← mapM (λ i, py_div (Int 1) i) (odds self); Ok (_cast self (Seq l)).

Definition normalized (self : Bayes) : result Bayes :=
  total ← py_sum (odds self);
  total ← to_float total;
  l ← mapM (λ i, py_div i (Float total)) (odds self); Ok (_cast self (Seq l)).

Definition __mul__ (self : Bayes) (other : odds_like) : result Bayes :=
  let other := _cast self other in
  l ← mapM (λ '(i, j), py_mul i j) (zip (odds self) (odds other));
  Ok (_cast self (Seq l)).

Definition most_likely (self : Bayes) (cutoff : number) : result (option string) :=
  normalized ← normalized self;
  max_value ← py_max (odds normalized);
  if py_gt max_value cutoff
  then i ← py_index (odds normalized) max_value;
       label ← py_getitem (labels self) i;
       Ok (Some label)
  else Ok None.

(** [self[:] = value; return self]: the items are replaced and the
    attributes stay.  The result is [self] after the call; what is left of
    [self] when [value] raises is not kept. *)
Definition assign_slice (self : Bayes) (value : result Bayes) : result Bayes :=
  value ← value; Ok {| odds := odds value; labels := labels self |}.

Section Updating.
Variable update : Bayes → odds_like → result Bayes.

(** One call of [update] per row, in order. *)
Fixpoint update_each (rows : list odds_like) (self : Bayes) : result Bayes :=
  match rows with
  | [] => Ok self
  | row :: rows => self ← update self row; update_each rows self
  end.

(** Along [rows], every product [self * self._cast(row)] that an update
    computes has a positive sum. *)
Fixpoint products_positive (rows : list odds_like) (self : Bayes) : bool :=
  match rows with
  | [] => true
  | row :: rows =>
      match __mul__ self (Belief (_cast self row)) ≫= (λ p, py_sum (odds p)),
            update self row with
      | Ok total, Ok self => py_gt total (Int 0) && products_positive rows self
      | _, _ => false
      end
  end.
End Updating.

(** [src/bayes.py] *)
Module bayes.
Definition update (self : Bayes) (event : odds_like) : result Bayes :=
  assign_slice self (__mul__ self (Belief (_cast self event))).
Definition update_each := update_each update.
Definition products_positive := products_positive update.
End bayes.

(** [src/bayesian/__init__.py] *)
Module bayesian.
Definition update (self : Bayes) (event : odds_like) : result Bayes :=
  assign_slice self (__mul__ self (Belief (_cast self event)) ≫= normalized).
Definition update_each := update_each update.
Definition products_positive := products_positive update.
End bayesian.

(** The prior of the spam filter of [src/bayes.py]. *)
Definition spam_prior : Bayes :=
  __init__ (InitPairs [("genuine", Int 90); ("spam", Int 10)]).

(** Two labels with even odds, and five rows of odds that first shrink both
    weights to [2 ** -1070] and then favour the second label a
    thousandfold. *)
Definition even_prior : Bayes :=
  __init__ (InitPairs [("a", Float 1); ("b", Float 1)]).

Definition fading_rows : list odds_like :=
  [ Seq [Float 0x1p-500; Float 0x1p-500];
    Seq [Float 0x1p-500; Float 0x1p-500];
    Seq [Float 0x1p-70; Float 0x1p-70];
    Seq [Float 1; Float 0x1p-10];
    Seq [Float 1; Float 0x1p+20] ].

(** What the two files make of [even_prior] along [fading_rows]: the
    weights left by [src/bayes.py] and their normalization, and the weights
    left by the package, [1/1025] and [1024/1025] as doubles. *)
Definition underflowed : list number := [Float 0x1p-1070; Float 0].
Definition decided : list number := [Float 1; Float 0].
Definition favoured : list number :=
  [Float 0x1.ff801ff801ff8p-11; Float 0x1.ff801ff801ff8p-1].

(** The default [cutoff] of [most_likely]. *)
Definition default_cutoff : number := Float 0.

(** Odds that are doubles, with their reciprocals. *)
Definition half_quarter : Bayes := __init__ (InitSeq [Float 0.5; Float 0.25] None).
Definition two_four : list number := [Float 2; Float 4].
End py2.

(** ** Vocabulary of the statements *)

(** [k in d] would succeed as a lookup [d[k]]. *)
Definition has_key (d : pydict) (k : string) : Prop :=
  match d with
  | Dict m => is_Some (m !! k)
  | DefaultDict _ => True
  end.

(** The inputs on which [_cast] builds a vector labelled like [self]: [self]
    has a label, and a mapping answers for each label of [self]. *)
Definition castable (self : Bayes) (other : odds_like) : Prop :=
  match other with
  | Belief _ => True
  | Seq _ => labels self ≠ []
  | Mapping d => labels self ≠ [] ∧ ∀ l, l ∈ labels self → has_key d l
  end.

(** Every product the non-normalizing [update] assigns while it goes through
    [rows] exists and has a positive sum. *)
Fixpoint products_positive (rows : list odds_like) (v : Bayes) : Prop :=
  match rows with
  | [] => True
  | row :: rows =>
      match bayes.update row v with
      | (Ok _, v') => 0 < py_sum (odds v') ∧ products_positive rows v'
      | (Raise _, _) => False
      end
  end.

(** How often [event] was extracted from the instances of [class_]. *)
Section Occurrences.
Context {instance : Type} (event_extractor : instance → list string).

Definition count_event (event : string) (instances : list instance) : nat :=
  sum_list ((λ i, length (filter (λ e, e = event) (event_extractor i))) <$> instances).

Definition occurrences (classes_instances : gmap string (list instance))
    (event class_ : string) : nat :=
  match classes_instances !! class_ with
  | Some instances => count_event event instances
  | None => 0
  end.

(** The same count over the items of the dictionary, in any order. *)
Definition occurrences_in (items : list (string * list instance))
    (event class_ : string) : nat :=
  sum_list ((λ item, if decide (item.1 = class_) then count_event event item.2 else 0%nat)
              <$> items).
End Occurrences.

Definition Qc_of_nat (n : nat) : Qc := Qc_of_Z (Z.of_nat n).

(** The shape [extract_events_odds] keeps its table in: the rows the table
    makes and the rows it holds default to [small]. *)
Definition table_ok (events_odds : defaultdict (defaultdict Qc)) : Prop :=
  default_factory events_odds = default_factory bayesian.new_events_odds ∧
  ∀ event row, dd_items events_odds !! event = Some row →
               default_factory row = bayesian.small.

(** Rows and tables whose entries, stored or default, are positive. *)
Definition row_positive (row : defaultdict Qc) : Prop :=
  0 < default_factory row ∧ ∀ k x, dd_items row !! k = Some x → 0 < x.

Definition table_positive (events_odds : defaultdict (defaultdict Qc)) : Prop :=
  table_ok events_odds ∧
  ∀ event row, dd_items events_odds !! event = Some row → row_positive row.

(** The values a population has for a property, in the order of its
    records. *)
Definition samples (population : list (gmap string Qc)) (property : string) : list Qc :=
  omap (λ properties : gmap string Qc, properties !! property) population.

(** ** Sample vectors *)

Definition v12 : Bayes := {| odds := [1; Q2Qc 2]; labels := ["a"; "b"] |}.
Definition v34 : Bayes := {| odds := [Q2Qc 3; Q2Qc 4]; labels := ["x"; "y"] |}.
Definition vnil : Bayes := {| odds := []; labels := [] |}.
Definition fair : Bayes := {| odds := [Q2Qc 0.5; Q2Qc 0.5]; labels := ["0"; "1"] |}.

Definition zeros : Bayes := {| odds := [0; 0]; labels := ["0"; "1"] |}.

(** The prior and the test of the cancer example of the scripts. *)
Definition cancer_prior : Bayes :=
  {| odds := [Q2Qc 0.99; Q2Qc 0.01]; labels := ["not cancer"; "cancer"] |}.
Definition positive_test : odds_like := Seq [Q2Qc 9.6; Q2Qc 80].

(** The positive test, a second one, and another test with the odds the
    other way round. *)
Definition three_tests : list odds_like :=
  [positive_test; positive_test; Seq [Q2Qc 80; Q2Qc 9.6]].

(** The coin example of the scripts. *)
Definition coin_odds : gmap string odds_like :=
  {[ "heads" := Mapping (Dict {[ "honest" := Q2Qc 0.5; "cheating" := Q2Qc 0.9 ]});
     "tails" := Mapping (Dict {[ "honest" := Q2Qc 0.5; "cheating" := Q2Qc 0.1 ]}) ]}.
Definition coin_results : list string := ["heads"; "heads"; "tails"; "heads"; "heads"].
Definition coin_prior : init_args :=
  InitDict (Dict {[ "cheating" := Q2Qc 0.5; "honest" := Q2Qc 0.5 ]}) None.

(** A training set of one class and one instance, already split in words. *)
Definition spam_only : gmap string (list (list string)) := {[ "spam" := [["buy"; "now"]] ]}.
Definition words (i : list string) : list string := i.

(** What a computation returned, for stating an example; [d] when it raised. *)
Definition value_of {A} (d : A) (r : result A) : A :=
  match r with
  | Ok a => a
  | Raise _ => d
  end.

Definition returns {A} (r : result A) : bool :=
  match r with
  | Ok _ => true
  | Raise _ => false
  end.

(** A vector that has lost to the evidence [contrary]. *)
Definition certain : Bayes := {| odds := [1; 0]; labels := ["yes"; "no"] |}.
Definition contrary : odds_like := Seq [0; 1].

Definition halves : odds_like := Seq [Q2Qc 0.5; Q2Qc 0.5; Q2Qc 0.5].

(** A training set of two classes, split in words. *)
Definition training : gmap string (list (list string)) :=
  {[ "spam" := [["buy"; "viagra"]; ["buy"; "now"]];
     "genuine" := [["meeting"; "tomorrow"]; ["buy"; "coffee"; "meeting"]] ]}.

(** Populations with numeric properties; the second has a single weight. *)
Definition heights : gmap string (list (gmap string Qc)) :=
  {[ "tall" := [ {[ "h" := Q2Qc 180 ]}; {[ "h" := Q2Qc 190 ]} ];
     "short" := [ {[ "h" := Q2Qc 150 ]}; {[ "h" := Q2Qc 160 ]} ] ]}.
Definition one_weight : list (gmap string Qc) :=
  [ {[ "h" := Q2Qc 180; "w" := Q2Qc 80 ]}; {[ "h" := Q2Qc 190 ]} ].

(** * Properties *)

(** ** Arithmetic of the built-ins *)

Lemma fold_left_Qcplus (l : list Qc) (a : Qc) :
  fold_left Qcplus l a = a + py_sum l.
Proof.
  unfold py_sum. revert a. induction l as [|x l IH]; intros a; simpl.
  - ring.
  - rewrite (IH (a + x)), (IH (0 + x)). ring.
Qed.

Lemma py_sum_nil : py_sum [] = 0.
Proof. reflexivity. Qed.

Lemma py_sum_cons (x : Qc) (l : list Qc) : py_sum (x :: l) = x + py_sum l.
Proof. unfold py_sum at 1. simpl. rewrite fold_left_Qcplus. ring. Qed.

Lemma py_sum_scale (l : list Qc) (c : Qc) :
  py_sum ((λ i, i / c) <$> l) = py_sum l / c.
Proof.
  induction l as [|x l IH].
  - rewrite fmap_nil, py_sum_nil. unfold Qcdiv. ring.
  - rewrite fmap_cons, !py_sum_cons, IH. unfold Qcdiv. ring.
Qed.

Lemma py_div_ok (x y : Qc) : y ≠ 0 → py_div x y = Ok (x / y).
Proof. intros. unfold py_div. by rewrite decide_False. Qed.

Lemma py_div_zero (x : Qc) : py_div x 0 = Raise ZeroDivisionError.
Proof. reflexivity. Qed.

Lemma mapM_result_cons {A B} (f : A → result B) (x : A) (l : list A) :
  mapM f (x :: l) = y ← f x; k ← mapM f l; Ok (y :: k).
Proof. reflexivity. Qed.

Lemma mapM_div_ok (total : Qc) (l : list Qc) :
  total ≠ 0 → mapM (λ i, py_div i total) l = Ok ((λ i, i / total) <$> l).
Proof.
  intros Hne. induction l as [|x l IH]; [done|].
  by rewrite mapM_result_cons, IH, py_div_ok.
Qed.

Lemma mapM_div_zero (l : list Qc) :
  l ≠ [] → mapM (λ i, py_div i 0) l = Raise ZeroDivisionError.
Proof. destruct l as [|x l]; [done|]. intros _. reflexivity. Qed.

Lemma mapM_inv_ok (l : list Qc) :
  0 ∉ l → mapM (λ i, py_div 1 i) l = Ok ((λ i, 1 / i) <$> l).
Proof.
  induction l as [|x l IH]; intros Hnot; [done|].
  apply not_elem_of_cons in Hnot as [Hx Hl].
  by rewrite mapM_result_cons, IH, py_div_ok.
Qed.

(** ** Labels through the constructor *)

Lemma py_or_labels (ls : list string) (n : nat) :
  (ls = [] → n = 0%nat) → py_or (Some ls) (default_labels n) = ls.
Proof. destruct ls; [intros ->|]; done. Qed.

Lemma py_or_nonempty (ls dflt : list string) :
  ls ≠ [] → py_or (Some ls) dflt = ls.
Proof. by destruct ls. Qed.

Lemma _cast_Seq (self : Bayes) (l : list Qc) :
  _cast self (Seq l) =
  Ok {| odds := l; labels := py_or (Some (labels self)) (default_labels (length l)) |}.
Proof. reflexivity. Qed.

(** Every vector the constructor builds has labels as soon as it has odds. *)
Lemma __init___labelled (args : init_args) (b : Bayes) :
  __init__ args = Ok b → labels b = [] → odds b = [].
Proof.
  destruct args as [d ls|ps|l ls]; simpl.
  - destruct (getitems d _) as [vs|e]; simpl; [|done].
    intros [= <-]; simpl. destruct (py_or ls _); simpl; [|done].
    by destruct vs.
  - intros [= <-]; simpl. by destruct ps.
  - intros [= <-]; simpl. destruct ls as [[|]|]; simpl; try done; by destruct l.
Qed.
Lemma opposite_zero (v : Bayes) :
  0 ∈ odds v →
  opposite v = _cast v (Seq ((λ i, if decide (i = 0) then 1 else 0) <$> odds v)).
Proof. intros H. unfold opposite. by rewrite decide_True. Qed.

Lemma opposite_nonzero (v : Bayes) :
  0 ∉ odds v → opposite v = _cast v (Seq ((λ i, 1 / i) <$> odds v)).
Proof.
  intros H. unfold opposite. rewrite decide_False by done.
  by rewrite mapM_inv_ok.
Qed.


(** Over exact arithmetic [opposite] returns a vector with the labels of [v]
    and as many odds; if some odds of [v] are zero, each zero becomes 1 and
    each other value becomes 0; otherwise each [w] becomes [1 / w], which is
    what the interpreter computes, up to rounding, as soon as [w] is a
    [float].  The vectors are
    those whose labels are not missing: empty labels only with empty odds,
    which holds of everything the constructor builds ([__init___labelled]),
    is kept by the updates ([update_labelled]) and follows from the data
    model's "as many labels as weights". *)
Theorem opposite_spec (v : Bayes) :
  (labels v = [] → odds v = []) →
  ∃ r, opposite v = Ok r ∧ labels r = labels v ∧ length (odds r) = length (odds v) ∧
    (0 ∈ odds v → ∀ k w, odds v !! k = Some w →
       (w = 0 → odds r !! k = Some 1) ∧ (w ≠ 0 → odds r !! k = Some 0)) ∧
    (0 ∉ odds v → ∀ k w, odds v !! k = Some w → odds r !! k = Some (1 / w)).
Proof.
  intros Hlab.
  assert (Hl : ∀ l : list Qc, length l = length (odds v) →
     py_or (Some (labels v)) (default_labels (length l)) = labels v).
  { intros l Hlen. apply py_or_labels. intros E. by rewrite Hlen, (Hlab E). }
  destruct (decide (0 ∈ odds v)) as [Hz|Hnz].
  - eexists. rewrite (opposite_zero _ Hz), _cast_Seq. split; [done|]. cbn [labels odds].
    split; [by rewrite Hl by apply length_fmap|].
    split; [apply length_fmap|]. split; [|done].
    intros _ k w Hk. rewrite list_lookup_fmap, Hk. simpl.
    split; intros Hw; [by rewrite decide_True|by rewrite decide_False].
  - eexists. rewrite (opposite_nonzero _ Hnz), _cast_Seq. split; [done|]. cbn [labels odds].
    split; [by rewrite Hl by apply length_fmap|].
    split; [apply length_fmap|]. split; [done|].
    intros _ k w Hk. by rewrite list_lookup_fmap, Hk.
Qed.

(** C1.  On the numbers of Python 2, [opposite] of the prior of the spam
    filter of [src/bayes.py], whose odds are the integers 90 and 10, has the
    odds 0 and 0 under the labels of the prior.  None of the odds is zero, so
    each is replaced by [1 / i]; on two integers that is the floor of the
    quotient, not the reciprocal.  [normalized] divides by a [float] and
    does not floor. *)
Theorem opposite_floors_integer_odds :
  py2.opposite py2.spam_prior =
    Ok {| py2.odds := [py2.Int 0; py2.Int 0]; py2.labels := ["genuine"; "spam"] |}.
Proof. vm_compute. reflexivity. Qed.

(** On odds that are doubles the same rule gives the reciprocals. *)
Example opposite_float_odds :
  py2.odds <$> py2.opposite py2.half_quarter = Ok py2.two_four.
Proof. vm_compute. reflexivity. Qed.

(** ** Normalization *)

Lemma normalized_ok (v : Bayes) :
  py_sum (odds v) ≠ 0 →
  normalized v =
  Ok {| odds := (λ i, i / py_sum (odds v)) <$> odds v;
        labels := py_or (Some (labels v)) (default_labels (length (odds v))) |}.
Proof.
  intros Hne. unfold normalized. cbn zeta.
  rewrite mapM_div_ok by done. cbn [mbind result_bind].
  by rewrite _cast_Seq, length_fmap.
Qed.

Lemma normalized_nil (v : Bayes) :
  odds v = [] → normalized v = Ok {| odds := []; labels := labels v |}.
Proof.
  intros E. unfold normalized. rewrite E. cbn.
  by destruct (labels v).
Qed.

(** C8, amended.  On a vector that has odds and whose odds sum to zero,
    [normalized] raises [ZeroDivisionError] (the failure the specification
    calls DegenerateDistribution) and returns no vector.  The empty vector
    is left out: there is nothing to divide and it comes back as it is. *)
Theorem normalized_zero_sum (v : Bayes) :
  odds v ≠ [] → py_sum (odds v) = 0 → normalized v = Raise ZeroDivisionError.
Proof.
  intros Hne Hsum. unfold normalized. cbn zeta. rewrite Hsum.
  by rewrite mapM_div_zero.
Qed.

(** C9.  Under a distribution of variance zero the Gaussian likelihood of a
    sample is 1 if the sample is the mean and 0 otherwise, whatever [exp],
    [sqrt] and [pi] are. *)
Theorem gaussian_probability_degenerate (exp sqrt : Qc → Qc) (pi sample mean : Qc) :
  bayesian.gaussian_probability exp sqrt pi sample (mean, 0) =
  Ok (if decide (sample = mean) then 1 else 0).
Proof.
  unfold bayesian.gaussian_probability. rewrite decide_True by done.
  destruct (decide (sample = mean)) as [->|Hne].
  - by rewrite decide_False by (intros H; by apply H).
  - by rewrite decide_True.
Qed.

(** ** Casting *)

Lemma getitem_has_key (d : pydict) (k : string) :
  has_key d k → ∃ x d', getitem d k = (Ok x, d') ∧ ∀ k', has_key d k' → has_key d' k'.
Proof.
  destruct d as [m|dd]; simpl.
  - intros [x Hx]. exists x, (Dict m). by rewrite Hx.
  - intros _. destruct (dd_getitem dd k) as [x dd']. by exists x, (DefaultDict dd').
Qed.

Lemma getitems_has_key (d : pydict) (ls : list string) :
  (∀ l, l ∈ ls → has_key d l) → ∃ vs, getitems d ls = Ok vs ∧ length vs = length ls.
Proof.
  revert d. induction ls as [|l ls IH]; intros d Hd; simpl.
  - by exists [].
  - destruct (getitem_has_key d l) as (x & d' & -> & Hd'); [apply Hd; left|].
    destruct (IH d') as (vs & -> & Hlen).
    { intros l' Hl'. apply Hd', Hd. by right. }
    exists (x :: vs). simpl. by rewrite Hlen.
Qed.
(** C4, amended.  [_cast] hands a belief vector back as it is, with its own
    labels.  On a bare sequence, and on a mapping that answers for every
    label of [self], it builds a vector with the labels of [self], provided
    [self] has a label. *)
Theorem cast_labels (self : Bayes) (other : odds_like) :
  castable self other →
  ∃ r, _cast self other = Ok r ∧
       match other with
       | Belief b => r = b
       | Seq l => r = {| odds := l; labels := labels self |}
       | Mapping _ => labels r = labels self ∧ length (odds r) = length (labels self)
       end.
Proof.
  destruct other as [l|d|b]; unfold _cast, __init__, castable.
  - intros Hne. eexists. split; [done|]. by rewrite py_or_nonempty.
  - intros [Hne Hkeys]. cbn zeta. rewrite (py_or_nonempty _ _ Hne).
    destruct (getitems_has_key d (labels self) Hkeys) as (vs & -> & Hlen).
    eexists. split; [done|]. cbn [odds labels]. by rewrite py_or_nonempty.
  - intros _. by exists b.
Qed.


(** C4 fails on a belief vector with other labels, which [_cast] returns
    unchanged, and on a [self] without labels, where the result gets the
    default labels. *)
Lemma cast_foreign_labels :
  (_cast v12 (Belief v34) = Ok v34 ∧ labels v34 ≠ labels v12) ∧
  (_cast vnil (Seq [1; 1]) = Ok {| odds := [1; 1]; labels := ["0"; "1"] |} ∧
   labels vnil = []).
Proof. repeat split; done. Qed.

(** C8 fails on the empty vector: its odds sum to zero and [normalized]
    returns it. *)
Lemma normalized_empty :
  py_sum (odds vnil) = 0 ∧ normalized vnil = Ok vnil.
Proof. split; reflexivity. Qed.

(** C3, amended.  [update_from_tests] does not compare the lengths of its
    two sequences: it pairs them with [zip], so in both files a call behaves
    exactly as the call on the two sequences cut to the shorter length; what
    the longer one has beyond that is never looked at. *)
Theorem update_from_tests_truncates (tests_results : list bool) (rows : list odds_like) :
  let n := length tests_results `min` length rows in
  bayes.update_from_tests tests_results rows =
    bayes.update_from_tests (take n tests_results) (take n rows) ∧
  bayesian.update_from_tests tests_results rows =
    bayesian.update_from_tests (take n tests_results) (take n rows).
Proof.
  intros n. unfold bayes.update_from_tests, bayesian.update_from_tests, update_from_tests.
  by rewrite zip_with_take_both' by done.
Qed.

(** C3 fails: with two test results and one odds row the call returns
    normally in both files, having applied the first pair only. *)
Lemma update_from_tests_no_length_check :
  length [true; false] ≠ length [Seq [Q2Qc 0.9; Q2Qc 0.1]] ∧
  (bayes.update_from_tests [true; false] [Seq [Q2Qc 0.9; Q2Qc 0.1]] fair).1 = Ok tt ∧
  (bayesian.update_from_tests [true; false] [Seq [Q2Qc 0.9; Q2Qc 0.1]] fair).1 = Ok tt ∧
  this <$> odds (bayesian.update_from_tests [true; false] [Seq [Q2Qc 0.9; Q2Qc 0.1]] fair).2
    = [0.9%Q; 0.1%Q] ∧
  this <$> odds (bayes.update_from_tests [true; false] [Seq [Q2Qc 0.9; Q2Qc 0.1]] fair).2
    = [(9#20)%Q; (1#20)%Q].
Proof. repeat split; try done; vm_compute; reflexivity. Qed.
(** ** The mutating methods leave the labels alone *)

Lemma method_bind_labels {A B} (m : method A) (k : A → method B) (v : Bayes) :
  (∀ v, labels (m v).2 = labels v) →
  (∀ a v, labels (k a v).2 = labels v) →
  labels ((m ≫= k) v).2 = labels v.
Proof.
  intros Hm Hk. unfold mbind, method_bind.
  specialize (Hm v). destruct (m v) as [[a|e] v']; simpl in *; [|done].
  by rewrite Hk.
Qed.

Lemma reading_labels {A} (f : Bayes → result A) (v : Bayes) :
  labels (reading f v).2 = labels v.
Proof. reflexivity. Qed.

Lemma assign_slice_labels (value v : Bayes) :
  labels (assign_slice value v).2 = labels v.
Proof. reflexivity. Qed.

Lemma bayes_update_labels (event : odds_like) (v : Bayes) :
  labels (bayes.update event v).2 = labels v.
Proof.
  apply method_bind_labels; [apply reading_labels|intros; apply assign_slice_labels].
Qed.

Lemma bayesian_update_labels (event : odds_like) (v : Bayes) :
  labels (bayesian.update event v).2 = labels v.
Proof.
  apply method_bind_labels; [apply reading_labels|intros; apply assign_slice_labels].
Qed.

Section Frame.
Variable update : odds_like → method unit.
Hypothesis update_labels : ∀ event v, labels (update event v).2 = labels v.

Lemma update_from_events_labels events events_odds (v : Bayes) :
  labels (update_from_events update events events_odds v).2 = labels v.
Proof.
  revert v. induction events as [|event events IH]; intros v; [done|].
  cbn [update_from_events]. apply method_bind_labels; [|done].
  intros v'. by destruct (events_odds !! event).
Qed.

Lemma test_step_labels result chance (v : Bayes) :
  labels (test_step update result chance v).2 = labels v.
Proof.
  destruct result; cbn [test_step]; [done|].
  apply method_bind_labels; [apply reading_labels|done].
Qed.

Lemma update_from_tests_labels tests_results rows (v : Bayes) :
  labels (update_from_tests update tests_results rows v).2 = labels v.
Proof.
  unfold update_from_tests. revert v.
  induction (zip tests_results rows) as [|[result chance] pairs IH]; intros v; [done|].
  cbn [for_each_test]. apply method_bind_labels; [|done].
  intros v'. apply test_step_labels.
Qed.

Lemma update_each_labels rows (v : Bayes) :
  labels (update_each update rows v).2 = labels v.
Proof.
  revert v. induction rows as [|row rows IH]; intros v; [done|].
  cbn [update_each]. by apply method_bind_labels.
Qed.
End Frame.

(** C10.  Whenever [update], [update_from_events] or [update_from_tests] of
    the package returns normally, taking [v] to [v'], the labels of [v'] are
    the labels of [v]. *)
Theorem mutation_keeps_labels (v v' : Bayes) :
  (∃ event, bayesian.update event v = (Ok tt, v')) ∨
  (∃ events events_odds, bayesian.update_from_events events events_odds v = (Ok tt, v')) ∨
  (∃ tests_results rows, bayesian.update_from_tests tests_results rows v = (Ok tt, v')) →
  labels v' = labels v.
Proof.
  intros [[event H]|[(events & events_odds & H)|(tests_results & rows & H)]].
  - by rewrite <- (bayesian_update_labels event v), H.
  - rewrite <- (update_from_events_labels _ bayesian_update_labels events events_odds v).
    unfold bayesian.update_from_events in H. by rewrite H.
  - rewrite <- (update_from_tests_labels _ bayesian_update_labels tests_results rows v).
    unfold bayesian.update_from_tests in H. by rewrite H.
Qed.
(** ** The most likely label *)

Lemma running_max_spec (xs : list Qc) (x : Qc) :
  let r := fold_left (λ m i, if decide (m < i) then i else m) xs x in
  r ∈ x :: xs ∧ ∀ w, w ∈ x :: xs → w ≤ r.
Proof.
  revert x. induction xs as [|y xs IH]; intros x; cbn [fold_left].
  - split; [left|]. intros w ->%list_elem_of_singleton. apply Qcle_refl.
  - destruct (IH (if decide (x < y) then y else x)) as [Hin Hmax].
    split.
    + apply elem_of_cons in Hin as [->|Hin]; [|by do 2 right].
      destruct (decide (x < y)); [right|]; left.
    + intros w Hw. assert (w ≤ (if decide (x < y) then y else x) ∨ w ∈ xs) as [H|H].
      { apply elem_of_cons in Hw as [->|Hw].
        - left. destruct (decide (x < y)); [by apply Qclt_le_weak|apply Qcle_refl].
        - apply elem_of_cons in Hw as [->|Hw]; [left|by right].
          destruct (decide (x < y)); [apply Qcle_refl|by apply Qcnot_lt_le]. }
      * eapply Qcle_trans; [exact H|]. apply Hmax. left.
      * apply Hmax. by right.
Qed.

Lemma py_max_spec (l : list Qc) :
  l ≠ [] → ∃ m, py_max l = Ok m ∧ m ∈ l ∧ ∀ w, w ∈ l → w ≤ m.
Proof.
  destruct l as [|x xs]; [done|]. intros _. eexists. split; [done|].
  apply running_max_spec.
Qed.

Lemma py_index_spec (l : list Qc) (m : Qc) :
  m ∈ l →
  ∃ k, py_index l m = Ok k ∧ l !! k = Some m ∧
       ∀ j w, (j < k)%nat → l !! j = Some w → w ≠ m.
Proof.
  induction l as [|y ys IH]; intros Hin; [by apply elem_of_nil in Hin|].
  cbn [py_index]. destruct (decide (y = m)) as [->|Hne].
  - exists 0%nat. split; [done|]. split; [done|]. intros j w Hj. lia.
  - apply elem_of_cons in Hin as [->|Hin]; [done|].
    destruct (IH Hin) as (k & -> & Hk & Hfirst).
    exists (S k). cbn. split; [done|]. split; [done|].
    intros [|j] w Hj; cbn; [by intros [= <-]|].
    apply Hfirst. lia.
Qed.

Lemma py_sum_pos_nonempty (l : list Qc) : 0 < py_sum l → l ≠ [] ∧ py_sum l ≠ 0.
Proof.
  intros Hpos. split.
  - intros ->. by apply (Qclt_not_eq _ _ Hpos).
  - intros E. rewrite E in Hpos. by apply (Qclt_not_eq _ _ Hpos).
Qed.

(** ** The two updates *)

Lemma _cast_same_labels (v v' : Bayes) (other : odds_like) :
  labels v = labels v' → _cast v other = _cast v' other.
Proof. intros E. destruct other; unfold _cast; by rewrite ?E. Qed.

Lemma bayes_update_eq (event : odds_like) (v : Bayes) :
  bayes.update event v =
  match _cast v event with
  | Ok o => (Ok tt, {| odds := zip_with Qcmult (odds v) (odds o); labels := labels v |})
  | Raise e => (Raise e, v)
  end.
Proof.
  unfold bayes.update, mbind at 1, method_bind, reading.
  by destruct (_cast v event).
Qed.

Lemma bayesian_update_eq (event : odds_like) (v : Bayes) :
  bayesian.update event v =
  match _cast v event with
  | Ok o =>
      let product := zip_with Qcmult (odds v) (odds o) in
      match mapM (λ i, py_div i (py_sum product)) product with
      | Ok l => (Ok tt, {| odds := l; labels := labels v |})
      | Raise e => (Raise e, v)
      end
  | Raise e => (Raise e, v)
  end.
Proof.
  unfold bayesian.update, mbind at 1, method_bind, reading.
  destruct (_cast v event) as [o|e]; [|done].
  cbn -[mapM py_sum zip_with normalized]. unfold normalized. cbn [odds].
  by destruct (mapM _ _).
Qed.

(** Both updates keep "empty labels only with empty odds". *)
Lemma update_labelled (event : odds_like) (v : Bayes) :
  (labels v = [] → odds v = []) →
  (labels (bayes.update event v).2 = [] → odds (bayes.update event v).2 = []) ∧
  (labels (bayesian.update event v).2 = [] → odds (bayesian.update event v).2 = []).
Proof.
  intros Hv. rewrite bayes_update_eq, bayesian_update_eq.
  destruct (_cast v event) as [o|e]; [|done]. cbn zeta. split.
  - cbn [snd odds labels]. intros E. by rewrite (Hv E).
  - destruct (mapM _ _) as [l|e] eqn:Hl; [|done].
    cbn [snd odds labels]. intros E. rewrite (Hv E) in Hl. by injection Hl as <-.
Qed.

Lemma zip_with_scale (l k : list Qc) (c : Qc) :
  zip_with Qcmult ((λ i, i / c) <$> l) k = (λ i, i / c) <$> zip_with Qcmult l k.
Proof.
  revert k. induction l as [|x l IH]; intros [|y k]; [done..|].
  cbn [fmap list_fmap zip_with]. rewrite <- IH. f_equal. unfold Qcdiv. ring.
Qed.

Lemma normalized_scale (r p : Bayes) (c : Qc) :
  c ≠ 0 → labels r = labels p → odds p = (λ i, i / c) <$> odds r →
  normalized p = normalized r.
Proof.
  intros Hc Hl Ho. unfold normalized. cbn zeta. rewrite Ho, py_sum_scale.
  destruct (decide (py_sum (odds r) = 0)) as [Hz|Hnz].
  - rewrite Hz. replace (0 / c) with 0 by (unfold Qcdiv; ring).
    destruct (odds r) as [|x l] eqn:E; [|done].
    cbn. by rewrite Hl.
  - rewrite !mapM_div_ok; [|done|].
    + cbn [mbind result_bind]. rewrite !_cast_Seq, !length_fmap, Hl. do 2 f_equal.
      rewrite <- list_fmap_compose. apply list_fmap_ext. intros i x _. cbn.
      field. by split.
    + intros H. apply Hnz. rewrite <- (Qcmult_div_r (py_sum (odds r)) c Hc), H. ring.
Qed.
Lemma Qcdiv_1_r (x : Qc) : x / 1 = x.
Proof. field. apply Q_apart_0_1. Qed.

(** One step: when the current vectors of the two variants differ by a
    nonzero factor, so do the next ones, and the factor is then the sum of
    the unnormalized product. *)
Lemma update_step_agree (row : odds_like) (r p r' : Bayes) (c : Qc) :
  c ≠ 0 → labels r = labels p → odds p = (λ i, i / c) <$> odds r →
  bayes.update row r = (Ok tt, r') → 0 < py_sum (odds r') →
  ∃ p', bayesian.update row p = (Ok tt, p') ∧ labels r' = labels p' ∧
        odds p' = (λ i, i / py_sum (odds r')) <$> odds r'.
Proof.
  intros Hc Hl Ho Hr Hpos. rewrite bayes_update_eq in Hr.
  rewrite bayesian_update_eq, <- (_cast_same_labels r p row Hl).
  destruct (_cast r row) as [o|e]; [|done].
  injection Hr as <-. cbn [odds labels] in *. cbn zeta.
  apply py_sum_pos_nonempty in Hpos as [_ Hsum].
  rewrite Ho, zip_with_scale, py_sum_scale, mapM_div_ok.
  - eexists. split; [done|]. split; [done|]. cbn [odds].
    rewrite <- list_fmap_compose. apply list_fmap_ext. intros i x _. cbn.
    field. by split.
  - intros H. apply Hsum.
    rewrite <- (Qcmult_div_r (py_sum (zip_with Qcmult (odds r) (odds o))) c Hc), H. ring.
Qed.

Lemma update_each_agree (rows : list odds_like) (r p : Bayes) (c : Qc) :
  c ≠ 0 → labels r = labels p → odds p = (λ i, i / c) <$> odds r →
  products_positive rows r →
  ∃ r' p' c', bayes.update_each rows r = (Ok tt, r') ∧
    bayesian.update_each rows p = (Ok tt, p') ∧
    c' ≠ 0 ∧ labels r' = labels p' ∧ odds p' = (λ i, i / c') <$> odds r' ∧
    (rows ≠ [] → c' = py_sum (odds r')).
Proof.
  revert r p c. induction rows as [|row rows IH]; intros r p c Hc Hl Ho Hpos.
  - by exists r, p, c.
  - cbn [products_positive] in Hpos.
    destruct (bayes.update row r) as [[[]|e] r1] eqn:Hr; [|done].
    destruct Hpos as [Hpos1 Hpos].
    destruct (update_step_agree row r p r1 c Hc Hl Ho Hr Hpos1) as (p1 & Hp & Hl1 & Ho1).
    apply py_sum_pos_nonempty in Hpos1 as [_ Hsum1].
    destruct (IH r1 p1 _ Hsum1 Hl1 Ho1 Hpos) as (r' & p' & c' & Hr' & Hp' & Hc' & Hl' & Ho' & Hrows).
    destruct rows as [|row' rows].
    + exists r1, p1, (py_sum (odds r1)).
      unfold bayes.update_each, bayesian.update_each, update_each, mbind, method_bind.
      fold bayes.update bayesian.update. rewrite Hr, Hp. done.
    + exists r', p', c'.
      unfold bayes.update_each, bayesian.update_each in *.
      cbn [update_each]. unfold mbind at 1 3, method_bind.
      rewrite Hr, Hp. repeat split; try done.
      intros _. by apply Hrows.
Qed.

(** C6, amended.  Over exact arithmetic, where no product rounds or
    underflows: let the products that the non-normalizing [update] of
    [src/bayes.py] assigns along [rows] all have a positive sum.  Then both
    variants go through [rows] without raising; normalizing the two final
    vectors gives the same vector; if there was at least one row, the final
    vector of the normalizing variant already is the normalized final vector
    of the other; and [most_likely] answers the same on both for every
    cutoff. *)
Theorem update_variants_agree (v : Bayes) (rows : list odds_like) :
  products_positive rows v →
  ∃ r p, bayes.update_each rows v = (Ok tt, r) ∧
    bayesian.update_each rows v = (Ok tt, p) ∧
    normalized r = normalized p ∧
    (rows ≠ [] → odds <$> normalized r = Ok (odds p)) ∧
    ∀ cutoff, most_likely r cutoff = most_likely p cutoff.
Proof.
  intros Hpos.
  destruct (update_each_agree rows v v 1) as (r & p & c & Hr & Hp & Hc & Hl & Ho & Hrows);
    [apply Q_apart_0_1|done| |done|].
  { rewrite <- (list_fmap_id (odds v)) at 1. apply list_fmap_ext.
    intros i x _. cbn. by rewrite Qcdiv_1_r. }
  exists r, p.
  pose proof (normalized_scale r p c Hc Hl Ho) as Hn.
  repeat split; try done.
  - intros Hne. rewrite Ho, normalized_ok; [by rewrite (Hrows Hne)|].
    by rewrite <- (Hrows Hne).
  - intros cutoff. unfold most_likely. by rewrite Hn, Hl.
Qed.
(** ** The table of event odds *)

Lemma Qc_of_nat_0 : Qc_of_nat 0 = 0.
Proof. apply Z2Qc_inj_0. Qed.

Lemma Qc_of_nat_S (n : nat) : Qc_of_nat (S n) = Qc_of_nat n + 1.
Proof.
  unfold Qc_of_nat. by rewrite Nat2Z.inj_succ, <- Z.add_1_r, Z2Qc_inj_add, Z2Qc_inj_1.
Qed.

Lemma Qc_of_nat_add (n m : nat) : Qc_of_nat (n + m) = Qc_of_nat n + Qc_of_nat m.
Proof. unfold Qc_of_nat. by rewrite Nat2Z.inj_add, Z2Qc_inj_add. Qed.

Lemma Qc_of_nat_nonneg (n : nat) : 0 ≤ Qc_of_nat n.
Proof. unfold Qc_of_nat. rewrite <- Z2Qc_inj_0, <- Z2Qc_inj_le. lia. Qed.

Lemma small_pos : 0 < bayesian.small.
Proof. reflexivity. Qed.

Lemma table_entry_eq (t : defaultdict (defaultdict Qc)) (event class_ : string) :
  bayesian.table_entry t event class_ =
  let row := default (default_factory t) (dd_items t !! event) in
  default (default_factory row) (dd_items row !! class_).
Proof.
  unfold bayesian.table_entry, dd_getitem. cbn zeta.
  destruct (dd_items t !! event) as [row|]; simpl.
  - by destruct (dd_items row !! class_).
  - by destruct (dd_items (default_factory t) !! class_).
Qed.

Lemma increment_items (class_ event : string) (t : defaultdict (defaultdict Qc)) :
  let row := default (default_factory t) (dd_items t !! event) in
  let count := default (default_factory row) (dd_items row !! class_) in
  default_factory (bayesian.increment class_ t event) = default_factory t ∧
  ∀ event', dd_items (bayesian.increment class_ t event) !! event' =
    if decide (event = event')
    then Some {| default_factory := default_factory row;
                 dd_items := <[class_ := count + 1]> (dd_items row) |}
    else dd_items t !! event'.
Proof.
  cbn zeta. unfold bayesian.increment, dd_getitem.
  destruct (dd_items t !! event) as [row|] eqn:Hrow; simpl.
  - destruct (dd_items row !! class_) as [x|] eqn:Hx; simpl;
      (split; [done|]); intros event'; rewrite lookup_insert; [done|].
    unfold dd_setitem; simpl. by rewrite insert_insert_eq.
  - destruct (dd_items (default_factory t) !! class_) as [x|] eqn:Hx; simpl;
      (split; [done|]); intros event'; rewrite insert_insert_eq, lookup_insert; [done|].
    unfold dd_setitem; simpl. by rewrite insert_insert_eq.
Qed.

Lemma increment_entry (class_ event : string) (t : defaultdict (defaultdict Qc))
    (event' class_' : string) :
  table_ok t →
  table_ok (bayesian.increment class_ t event) ∧
  bayesian.table_entry (bayesian.increment class_ t event) event' class_' =
    bayesian.table_entry t event' class_' +
    (if decide (event = event' ∧ class_ = class_') then 1 else 0).
Proof.
  intros [Hdef Hrows].
  destruct (increment_items class_ event t) as [Hdef' Hitems]. cbn zeta in Hitems.
  assert (Hrow : default_factory (default (default_factory t) (dd_items t !! event))
                 = bayesian.small).
  { destruct (dd_items t !! event) as [row|] eqn:E; simpl; [by eapply Hrows|].
    by rewrite Hdef. }
  split.
  - split; [by rewrite Hdef'|]. intros ev row. rewrite Hitems.
    destruct (decide (event = ev)) as [->|Hne]; [|by apply Hrows].
    by intros [= <-].
  - rewrite !table_entry_eq. cbn zeta. rewrite Hitems, Hdef'.
    destruct (decide (event = event')) as [->|Hne]; simpl.
    + rewrite lookup_insert.
      destruct (decide (class_ = class_')) as [->|Hne].
      * rewrite decide_True by done. done.
      * rewrite decide_False by (by intros [_ ?]). simpl. ring.
    + rewrite decide_False by (by intros [? _]). ring.
Qed.
Lemma new_events_odds_ok : table_ok bayesian.new_events_odds.
Proof. split; [done|]. intros event row. cbn. by rewrite lookup_empty. Qed.

Lemma new_events_odds_entry (event class_ : string) :
  bayesian.table_entry bayesian.new_events_odds event class_ = bayesian.small.
Proof. reflexivity. Qed.

Lemma foldl_increment (class_ : string) (events : list string)
    (t : defaultdict (defaultdict Qc)) (event' class_' : string) :
  table_ok t →
  table_ok (foldl (bayesian.increment class_) t events) ∧
  bayesian.table_entry (foldl (bayesian.increment class_) t events) event' class_' =
    bayesian.table_entry t event' class_' +
    Qc_of_nat (if decide (class_ = class_')
               then length (filter (λ e, e = event') events) else 0%nat).
Proof.
  revert t. induction events as [|event events IH]; intros t Hok; cbn [foldl].
  - split; [done|]. rewrite filter_nil. cbn [length].
    destruct (decide _); rewrite Qc_of_nat_0; ring.
  - destruct (increment_entry class_ event t event' class_' Hok) as [Hok' Hentry].
    destruct (IH _ Hok') as [Hok'' ->]. split; [done|]. rewrite Hentry.
    rewrite filter_cons.
    destruct (decide (class_ = class_')) as [->|Hc].
    + destruct (decide (event = event')) as [->|He].
      * rewrite decide_True by done. cbn [length]. rewrite Qc_of_nat_S. ring.
      * rewrite decide_False by (by intros [? _]). ring.
    + rewrite decide_False by (by intros [_ ?]). ring.
Qed.

Lemma sum_list_cons (n : nat) (l : list nat) : sum_list (n :: l) = (n + sum_list l)%nat.
Proof. reflexivity. Qed.

Section Extraction.
Context {instance : Type} (event_extractor : instance → list string).

Lemma foldl_instances (class_ : string) (instances : list instance)
    (t : defaultdict (defaultdict Qc)) (event' class_' : string) :
  table_ok t →
  let t' := foldl (λ events_odds i,
                     foldl (bayesian.increment class_) events_odds (event_extractor i))
              t instances in
  table_ok t' ∧
  bayesian.table_entry t' event' class_' =
    bayesian.table_entry t event' class_' +
    Qc_of_nat (if decide (class_ = class_')
               then count_event event_extractor event' instances else 0%nat).
Proof.
  cbn zeta.
  revert t. induction instances as [|i instances IH]; intros t Hok; cbn [foldl].
  - split; [done|]. change (count_event event_extractor event' []) with 0%nat.
    destruct (decide _); rewrite Qc_of_nat_0; ring.
  - destruct (foldl_increment class_ (event_extractor i) t event' class_' Hok)
      as [Hok' Hentry].
    destruct (IH _ Hok') as [Hok'' ->]. split; [done|]. rewrite Hentry.
    destruct (decide (class_ = class_')) as [->|Hc]; [|rewrite Qc_of_nat_0; ring].
    unfold count_event. rewrite fmap_cons, sum_list_cons, Qc_of_nat_add. ring.
Qed.

Lemma foldl_classes (items : list (string * list instance))
    (t : defaultdict (defaultdict Qc)) (event' class_' : string) :
  table_ok t →
  let t' := foldl (λ events_odds '(class_, instances),
                     foldl (λ events_odds i,
                              foldl (bayesian.increment class_) events_odds
                                (event_extractor i))
                       events_odds instances) t items in
  table_ok t' ∧
  bayesian.table_entry t' event' class_' =
    bayesian.table_entry t event' class_' +
    Qc_of_nat (occurrences_in event_extractor items event' class_').
Proof.
  cbn zeta.
  revert t. induction items as [|[class_ instances] items IH]; intros t Hok; cbn [foldl].
  - split; [done|]. change (occurrences_in event_extractor [] event' class_') with 0%nat.
    rewrite Qc_of_nat_0. ring.
  - destruct (foldl_instances class_ instances t event' class_' Hok) as [Hok' Hentry].
    destruct (IH _ Hok') as [Hok'' ->]. split; [done|]. rewrite Hentry.
    unfold occurrences_in. rewrite fmap_cons, sum_list_cons, Qc_of_nat_add.
    cbn [fst snd]. ring.
Qed.

Lemma occurrences_in_NoDup (items : list (string * list instance))
    (event class_ : string) :
  NoDup items.*1 →
  occurrences_in event_extractor items event class_ =
  match (list_to_map items : gmap string (list instance)) !! class_ with
  | Some instances => count_event event_extractor event instances
  | None => 0%nat
  end.
Proof.
  unfold occurrences_in.
  induction items as [|[c instances] items IH]; intros Hnd; [done|].
  apply NoDup_cons in Hnd as [Hnotin Hnd].
  rewrite fmap_cons, sum_list_cons. cbn [fst snd list_to_map foldr uncurry].
  fold (list_to_map (M:=gmap string (list instance)) items).
  rewrite (IH Hnd), lookup_insert.
  destruct (decide (c = class_)) as [->|Hne]; [|done].
  rewrite (not_elem_of_list_to_map_1 _ _ Hnotin). lia.
Qed.

Lemma occurrences_items (classes_instances : gmap string (list instance))
    (event class_ : string) :
  occurrences_in event_extractor (map_to_list classes_instances) event class_ =
  occurrences event_extractor classes_instances event class_.
Proof.
  rewrite occurrences_in_NoDup by apply NoDup_fst_map_to_list.
  by rewrite list_to_map_to_list.
Qed.

(** C5, amended.  Every entry read from the table [extract_events_odds]
    builds is the number of times the event was extracted from the instances
    of the class, plus [small]: [small] alone for a pair never observed,
    and never the bare count for a pair that was.  So every entry is
    strictly positive. *)
Theorem extract_events_odds_entry (classes_instances : gmap string (list instance))
    (event class_ : string) :
  bayesian.table_entry (bayesian.extract_events_odds classes_instances event_extractor)
    event class_ =
    Qc_of_nat (occurrences event_extractor classes_instances event class_)
    + bayesian.small ∧
  0 < bayesian.table_entry
        (bayesian.extract_events_odds classes_instances event_extractor) event class_.
Proof.
  assert (E : bayesian.table_entry
    (bayesian.extract_events_odds classes_instances event_extractor) event class_ =
    Qc_of_nat (occurrences event_extractor classes_instances event class_)
    + bayesian.small).
  { unfold bayesian.extract_events_odds.
    destruct (foldl_classes (map_to_list classes_instances) bayesian.new_events_odds
                event class_ new_events_odds_ok) as [_ ->].
    rewrite new_events_odds_entry, occurrences_items. ring. }
  split; [done|]. rewrite E.
  apply Qcplus_nonneg_pos; [apply Qc_of_nat_nonneg|apply small_pos].
Qed.
End Extraction.
(** C5 fails on an observed pair: "buy" occurs once for "spam" and its
    entry is 1.000001, not 1. *)
Lemma extract_events_odds_offset :
  occurrences words spam_only "buy" "spam" = 1%nat ∧
  this (bayesian.table_entry (bayesian.extract_events_odds spam_only words) "buy" "spam")
    = 1.000001%Q ∧
  bayesian.table_entry (bayesian.extract_events_odds spam_only words) "buy" "spam" ≠ 1.
Proof.
  split; [reflexivity|]. split; [vm_compute; reflexivity|].
  intros H. apply (f_equal this) in H. vm_compute in H. discriminate H.
Qed.
(** [update_from_events] is [update_each] on the rows of the events that the
    table knows. *)
Lemma update_from_events_each (update : odds_like → method unit)
    (events : list string) (events_odds : gmap string odds_like) (v : Bayes) :
  update_from_events update events events_odds v =
  update_each update (omap (λ event, events_odds !! event) events) v.
Proof.
  revert v. induction events as [|event events IH]; intros v; [done|].
  cbn [update_from_events omap list_omap].
  destruct (events_odds !! event) as [row|]; cbn [update_each].
  - unfold mbind, method_bind. destruct (update row v) as [[[]|e] v']; [apply IH|done].
  - apply IH.
Qed.
(** ** The theorems at concrete vectors *)

(** [opposite_spec] at [fair] *)
Lemma opposite_spec_fair :
  (labels fair = [] → odds fair = []) ∧
  ∃ r, opposite fair = Ok r ∧ labels r = labels fair ∧
    length (odds r) = length (odds fair) ∧
    (0 ∈ odds fair → ∀ k w, odds fair !! k = Some w →
       (w = 0 → odds r !! k = Some 1) ∧ (w ≠ 0 → odds r !! k = Some 0)) ∧
    (0 ∉ odds fair → ∀ k w, odds fair !! k = Some w → odds r !! k = Some (1 / w)).
Proof.
  split; [intros H; discriminate H|].
  apply (opposite_spec fair). intros H. discriminate H.
Defined.


(** C4, amended, at [v12] and a bare sequence *)
Lemma cast_labels_v12 :
  castable v12 (Seq [Q2Qc 3; Q2Qc 4]) ∧
  ∃ r, _cast v12 (Seq [Q2Qc 3; Q2Qc 4]) = Ok r ∧
       r = {| odds := [Q2Qc 3; Q2Qc 4]; labels := labels v12 |}.
Proof.
  split; [simpl; discriminate|].
  apply (cast_labels v12 (Seq [Q2Qc 3; Q2Qc 4])). simpl. discriminate.
Defined.

(** C6, amended, at the cancer example with three tests in a row *)
Lemma update_variants_agree_three_tests :
  products_positive three_tests cancer_prior ∧
  ∃ r p, bayes.update_each three_tests cancer_prior = (Ok tt, r) ∧
    bayesian.update_each three_tests cancer_prior = (Ok tt, p) ∧
    normalized r = normalized p ∧
    (three_tests ≠ [] → odds <$> normalized r = Ok (odds p)) ∧
    ∀ cutoff, most_likely r cutoff = most_likely p cutoff.
Proof.
  assert (H : products_positive three_tests cancer_prior).
  { vm_compute. repeat split. }
  split; [exact H|]. apply (update_variants_agree cancer_prior three_tests H).
Defined.

(** C6 as stated fails on doubles.  From even odds for the labels [a] and
    [b], along five rows whose products all have a positive sum under either
    [update], the vector of [src/bayes.py] ends on the weights [2 ** -1070]
    and [0.0], the product of [2 ** -1070] and [2 ** -10] being too small
    for a double; normalized once, that is [1.0] and [0.0], and the most
    likely label is [a].  The vector of the package ends on about a
    thousandth for [a] and the rest for [b], which are the exact
    probabilities rounded, and the most likely label is [b]. *)
Lemma update_variants_differ_on_doubles :
  py2.bayes.products_positive py2.fading_rows py2.even_prior = true ∧
  py2.bayesian.products_positive py2.fading_rows py2.even_prior = true ∧
  ∃ r p,
    py2.bayes.update_each py2.fading_rows py2.even_prior = Ok r ∧
    py2.bayesian.update_each py2.fading_rows py2.even_prior = Ok p ∧
    py2.odds r = py2.underflowed ∧
    py2.odds <$> py2.normalized r = Ok py2.decided ∧
    py2.odds p = py2.favoured ∧
    py2.odds <$> py2.normalized r ≠ Ok (py2.odds p) ∧
    py2.most_likely r py2.default_cutoff = Ok (Some "a") ∧
    py2.most_likely p py2.default_cutoff = Ok (Some "b").
Proof.
  split; [vm_compute; reflexivity|]. split; [vm_compute; reflexivity|].
  eexists _, _. split; [vm_compute; reflexivity|]. split; [vm_compute; reflexivity|].
  cbn [py2.odds].
  repeat split; try (vm_compute; reflexivity).
  intros H.
  apply (f_equal (λ l, match l with
                       | Ok (x :: _) => py2.py_eq x (py2.Int 1)
                       | _ => false
                       end)) in H.
  vm_compute in H. discriminate H.
Qed.


(** C8, amended, at [zeros] *)
Lemma normalized_zero_sum_zeros :
  odds zeros ≠ [] ∧ py_sum (odds zeros) = 0 ∧ normalized zeros = Raise ZeroDivisionError.
Proof.
  split; [discriminate|]. split; [reflexivity|].
  apply (normalized_zero_sum zeros); [discriminate|reflexivity].
Defined.

Lemma method_Ok_pair (x : result unit * Bayes) : x.1 = Ok tt → x = (Ok tt, x.2).
Proof. destruct x as [r v]. simpl. by intros ->. Defined.

(** C10 at the cancer example *)
Lemma mutation_keeps_labels_cancer :
  labels (bayesian.update positive_test cancer_prior).2 = labels cancer_prior.
Proof.
  apply (mutation_keeps_labels cancer_prior (bayesian.update positive_test cancer_prior).2).
  left. exists positive_test. apply method_Ok_pair. vm_compute. reflexivity.
Defined.

(** ** The examples of the scripts *)

Example cancer_test :
  this <$> odds (bayes.update positive_test cancer_prior).2 = Qred <$> [9.504%Q; 0.8%Q] ∧
  this <$> odds (bayesian.update positive_test cancer_prior).2 = [(297 # 322)%Q; (25 # 322)%Q] ∧
  most_likely (bayesian.update positive_test cancer_prior).2 0 = Ok (Some "not cancer").
Proof. repeat split; vm_compute; reflexivity. Qed.

Example coin_test :
  (b ← __init__ coin_prior;
   Ok (labels b,
       most_likely (bayesian.update_from_events coin_results coin_odds b).2 (Q2Qc 0.5)))
  = Ok (["cheating"; "honest"], Ok (Some "cheating")).
Proof. vm_compute. reflexivity. Qed.
(** * Further properties of the code *)

(** ** Normalization gives probabilities *)

Lemma normalized_cases (v : Bayes) :
  normalized v =
  if decide (odds v = []) then Ok {| odds := []; labels := labels v |}
  else if decide (py_sum (odds v) = 0) then Raise ZeroDivisionError
  else Ok {| odds := (λ i, i / py_sum (odds v)) <$> odds v;
             labels := py_or (Some (labels v)) (default_labels (length (odds v))) |}.
Proof.
  destruct (decide (odds v = [])) as [E|Hne]; [by apply normalized_nil|].
  destruct (decide (py_sum (odds v) = 0)) as [Hz|Hnz]; [|by apply normalized_ok].
  unfold normalized. cbn zeta. by rewrite Hz, mapM_div_zero.
Qed.

Lemma Qcdiv_self (x : Qc) : x ≠ 0 → x / x = 1.
Proof. intros Hx. by field. Qed.

Lemma py_sum_nonneg (l : list Qc) : (∀ w, w ∈ l → 0 ≤ w) → 0 ≤ py_sum l.
Proof.
  induction l as [|x l IH]; intros Hl; [apply Qcle_refl|].
  rewrite py_sum_cons. replace 0 with (0 + 0) by ring.
  apply Qcplus_le_compat; [apply Hl; left|apply IH; intros w Hw; apply Hl; by right].
Qed.

Lemma py_sum_bounds (l : list Qc) (w : Qc) :
  (∀ w, w ∈ l → 0 ≤ w) → w ∈ l → w ≤ py_sum l.
Proof.
  induction l as [|x l IH]; intros Hl Hw; [by apply elem_of_nil in Hw|].
  rewrite py_sum_cons.
  assert (Hx : 0 ≤ x) by (apply Hl; left).
  assert (Hs : 0 ≤ py_sum l) by (apply py_sum_nonneg; intros y Hy; apply Hl; by right).
  apply elem_of_cons in Hw as [->|Hw].
  - rewrite <- (Qcplus_0_r x) at 1. by apply Qcplus_le_compat; [apply Qcle_refl|].
  - rewrite <- (Qcplus_0_l w). apply Qcplus_le_compat; [done|].
    apply IH; [|done]. intros y Hy. apply Hl. by right.
Qed.

Lemma Qcdiv_nonneg (x y : Qc) : 0 ≤ x → 0 < y → 0 ≤ x / y.
Proof.
  intros Hx Hy. unfold Qcdiv. replace 0 with (0 * / y) by ring.
  apply Qcmult_le_compat_r; [done|]. apply Qclt_le_weak. by apply Qcinv_pos.
Qed.

Lemma Qcdiv_le_1 (x y : Qc) : x ≤ y → 0 < y → x / y ≤ 1.
Proof.
  intros Hx Hy. rewrite <- (Qcdiv_self y) by (by apply not_symmetry, Qclt_not_eq).
  unfold Qcdiv. apply Qcmult_le_compat_r; [done|]. apply Qclt_le_weak. by apply Qcinv_pos.
Qed.

Lemma normalized_probabilities_aux (v n : Bayes) :
  odds v ≠ [] → normalized v = Ok n →
  py_sum (odds n) = 1 ∧
  ((∀ w, w ∈ odds v → 0 ≤ w) → ∀ p, p ∈ odds n → 0 ≤ p ∧ p ≤ 1).
Proof.
  intros Hne. rewrite normalized_cases, decide_False by done.
  destruct (decide (py_sum (odds v) = 0)) as [|Hnz]; [done|].
  intros [= <-]. cbn [odds]. split.
  - rewrite py_sum_scale. by apply Qcdiv_self.
  - intros Hpos p [w [-> Hw]]%list_elem_of_fmap.
    assert (0 < py_sum (odds v)) as Hs.
    { destruct (Qcle_lt_or_eq 0 (py_sum (odds v))) as [H|H]; [by apply py_sum_nonneg|done|].
      by destruct Hnz. }
    split; [apply Qcdiv_nonneg; [by apply Hpos|done]|].
    apply Qcdiv_le_1; [|done]. by apply py_sum_bounds.
Qed.

(** X1.  When none of a vector's odds is negative, each of the odds that
    [normalized] returns lies between 0 and 1. *)
Theorem normalized_probabilities (v n : Bayes) :
  normalized v = Ok n → (∀ w, w ∈ odds v → 0 ≤ w) →
  ∀ p, p ∈ odds n → 0 ≤ p ∧ p ≤ 1.
Proof.
  intros Hn Hpos. destruct (decide (odds v = [])) as [E|Hne].
  - rewrite normalized_nil in Hn by done. injection Hn as <-.
    intros p Hp. by apply elem_of_nil in Hp.
  - by apply (normalized_probabilities_aux v n Hne Hn).
Qed.

(** X4.  On odds that sum to zero [most_likely] raises: [ValueError] when there are
    no odds at all ([max] of nothing), [ZeroDivisionError] otherwise. *)
Theorem most_likely_zero_sum (v : Bayes) (cutoff : Qc) :
  py_sum (odds v) = 0 →
  most_likely v cutoff = Raise (if decide (odds v = []) then ValueError else ZeroDivisionError).
Proof.
  intros Hz. unfold most_likely. rewrite normalized_cases.
  destruct (decide (odds v = [])) as [E|Hne]; [done|].
  by rewrite decide_True.
Qed.
(** ** What an update does to the vector *)

(** X5.  When the product of the vector and the row is not empty and sums to zero,
    the normalizing [update] raises [ZeroDivisionError] and leaves the vector
    as it was; the other [update] stores the product. *)
Theorem update_zero_product (event : odds_like) (v o : Bayes) :
  _cast v event = Ok o →
  zip_with Qcmult (odds v) (odds o) ≠ [] →
  py_sum (zip_with Qcmult (odds v) (odds o)) = 0 →
  bayesian.update event v = (Raise ZeroDivisionError, v) ∧
  bayes.update event v =
    (Ok tt, {| odds := zip_with Qcmult (odds v) (odds o); labels := labels v |}).
Proof.
  intros Ho Hne Hz. rewrite bayes_update_eq, bayesian_update_eq, Ho. cbn zeta.
  by rewrite Hz, mapM_div_zero.
Qed.


(** X7.  After a successful [update] with a bare sequence the vector has as many
    odds as the shorter of the two, and the labels it had, in both files. *)
Theorem update_truncates (l : list Qc) (v v' : Bayes) :
  bayes.update (Seq l) v = (Ok tt, v') ∨ bayesian.update (Seq l) v = (Ok tt, v') →
  length (odds v') = length (odds v) `min` length l ∧ labels v' = labels v.
Proof.
  rewrite bayes_update_eq, bayesian_update_eq, _cast_Seq. cbn zeta. cbn [odds].
  intros [[= <-]|H].
  - cbn [odds labels]. by rewrite length_zip_with.
  - destruct (decide (py_sum (zip_with Qcmult (odds v) l) = 0)) as [Hz|Hnz].
    + rewrite Hz in H. destruct (zip_with Qcmult (odds v) l) as [|x k] eqn:E; [|done].
      injection H as <-. cbn [odds labels]. split; [|done].
      by rewrite <- (length_zip_with Qcmult), E.
    + rewrite mapM_div_ok in H by done. injection H as <-. cbn [odds labels].
      by rewrite length_fmap, length_zip_with.
Qed.

(** ** Sequences of events *)

Section Events_sequences.
Variable update : odds_like → method unit.

Lemma update_from_events_filter (events : list string)
    (events_odds : gmap string odds_like) (v : Bayes) :
  update_from_events update events events_odds v =
  update_from_events update
    (filter (λ event, is_Some (events_odds !! event)) events) events_odds v.
Proof.
  revert v. induction events as [|event events IH]; intros v; [done|].
  rewrite filter_cons. cbn [update_from_events].
  destruct (events_odds !! event) as [row|] eqn:Hrow.
  - rewrite decide_True by done. cbn [update_from_events]. rewrite Hrow.
    unfold mbind, method_bind. by destruct (update row v) as [[[]|e] v'].
  - rewrite decide_False by (by intros [? ?]). apply IH.
Qed.

Lemma update_from_events_app_gen (events1 events2 : list string)
    (events_odds : gmap string odds_like) (v : Bayes) :
  update_from_events update (events1 ++ events2) events_odds v =
  match update_from_events update events1 events_odds v with
  | (Ok _, v1) => update_from_events update events2 events_odds v1
  | (Raise e, v1) => (Raise e, v1)
  end.
Proof.
  revert v. induction events1 as [|event events1 IH]; intros v; [done|].
  cbn [app update_from_events]. unfold mbind, method_bind.
  destruct (match events_odds !! event with Some row => update row | None => _ end v)
    as [[[]|e] v']; [apply IH|done].
Qed.
End Events_sequences.

(** X9.  [update_from_events] passes over the events that are not in the table: in
    both files a call is the call on the known events alone, and with no
    known event the vector comes back as it was. *)
Theorem update_from_events_skips_unknown (events : list string)
    (events_odds : gmap string odds_like) (v : Bayes) :
  let known := filter (λ event, is_Some (events_odds !! event)) events in
  bayes.update_from_events events events_odds v =
    bayes.update_from_events known events_odds v ∧
  bayesian.update_from_events events events_odds v =
    bayesian.update_from_events known events_odds v ∧
  (known = [] →
   bayes.update_from_events events events_odds v = (Ok tt, v) ∧
   bayesian.update_from_events events events_odds v = (Ok tt, v)).
Proof.
  intros known. unfold bayes.update_from_events, bayesian.update_from_events.
  split; [apply update_from_events_filter|]. split; [apply update_from_events_filter|].
  intros E. rewrite !(update_from_events_filter _ events).
  fold known. by rewrite E.
Qed.

(** X10.  [update_from_events] on two sequences in a row is the call on the first
    followed, from the vector it left, by the call on the second; an
    exception of the first is the exception of the whole. *)
Theorem update_from_events_app (events1 events2 : list string)
    (events_odds : gmap string odds_like) (v : Bayes) :
  bayes.update_from_events (events1 ++ events2) events_odds v =
    match bayes.update_from_events events1 events_odds v with
    | (Ok _, v1) => bayes.update_from_events events2 events_odds v1
    | (Raise e, v1) => (Raise e, v1)
    end ∧
  bayesian.update_from_events (events1 ++ events2) events_odds v =
    match bayesian.update_from_events events1 events_odds v with
    | (Ok _, v1) => bayesian.update_from_events events2 events_odds v1
    | (Raise e, v1) => (Raise e, v1)
    end.
Proof. split; apply update_from_events_app_gen. Qed.

(** ** Subscripts *)

Lemma labels_index_first (ls : list string) (k : nat) (s : string) :
  ls !! k = Some s → (∀ j, (j < k)%nat → ls !! j ≠ Some s) → labels_index ls s = Ok k.
Proof.
  revert k. induction ls as [|y ys IH]; intros k Hk Hfirst; [done|].
  cbn [labels_index]. destruct k as [|k].
  - injection Hk as ->. by rewrite decide_True.
  - rewrite decide_False.
    + rewrite (IH k); [done|done|]. intros j Hj. apply (Hfirst (S j)). lia.
    + intros ->. by apply (Hfirst 0%nat); [lia|].
Qed.

Lemma labels_index_Ok (ls : list string) (k : nat) (s : string) :
  labels_index ls s = Ok k → ls !! k = Some s ∧ ∀ j, (j < k)%nat → ls !! j ≠ Some s.
Proof.
  revert k. induction ls as [|y ys IH]; intros k; [done|].
  cbn [labels_index]. destruct (decide (y = s)) as [->|Hne].
  - intros [= <-]. split; [done|]. intros j Hj. lia.
  - destruct (labels_index ys s) as [k'|e] eqn:E; [|done].
    intros [= <-]. destruct (IH k' eq_refl) as [Hk Hfirst]. split; [done|].
    intros [|j] Hj; cbn; [by intros [= ->]|]. apply Hfirst. lia.
Qed.

Lemma labels_index_unknown (ls : list string) (s : string) :
  s ∉ ls → labels_index ls s = Raise ValueError.
Proof.
  induction ls as [|y ys IH]; intros Hnot; [done|].
  apply not_elem_of_cons in Hnot as [Hne Hnot].
  cbn [labels_index]. rewrite decide_False by done. by rewrite IH.
Qed.

Lemma labels_index_inj (ls : list string) (k : nat) (s s' : string) :
  labels_index ls s = Ok k → labels_index ls s' = Ok k → s = s'.
Proof.
  intros [H _]%labels_index_Ok [H' _]%labels_index_Ok. congruence.
Qed.

Lemma py_position_nat (n k : nat) :
  py_position n (Z.of_nat k) = if decide (k < n)%nat then Ok k else Raise IndexError.
Proof.
  unfold py_position. cbn zeta.
  rewrite (decide_False (P := (Z.of_nat k < 0)%Z)) by lia.
  destruct (decide (k < n)%nat).
  - rewrite decide_True by lia. by rewrite Nat2Z.id.
  - by rewrite decide_False by lia.
Qed.

Lemma list_getitem_nat (v : Bayes) (k : nat) :
  list_getitem v (Z.of_nat k) =
  match odds v !! k with Some x => Ok x | None => Raise IndexError end.
Proof.
  unfold list_getitem. rewrite py_position_nat.
  destruct (decide (k < length (odds v))%nat) as [Hk|Hk]; cbn.
  - done.
  - by rewrite lookup_ge_None_2 by lia.
Qed.

(** X12.  [self[label]] is [self[k]] for the first position [k] that holds the
    label: the same odds, or the same exception. *)
Theorem getitem_label_position (v : Bayes) (k : nat) (s : string) :
  labels v !! k = Some s → (∀ j, (j < k)%nat → labels v !! j ≠ Some s) →
  __getitem__ v (Label s) = __getitem__ v (Position (Z.of_nat k)).
Proof.
  intros Hk Hfirst. cbn [__getitem__]. by rewrite (labels_index_first _ k s).
Qed.

(** X13.  With a label the vector does not have, [self[label]] raises [ValueError],
    and so does [self[label] = x], which leaves the vector as it was. *)
Theorem unknown_label (v : Bayes) (s : string) (x : Qc) :
  s ∉ labels v →
  __getitem__ v (Label s) = Raise ValueError ∧
  __setitem__ (Label s) x v = (Raise ValueError, v).
Proof.
  intros Hnot. cbn [__getitem__ __setitem__]. unfold mbind at 2, method_bind, reading.
  by rewrite labels_index_unknown.
Qed.

(** X14.  When [self[label]] can be read, [self[label] = x] replaces the odds at the
    position of the label and nothing else; then [self[label]] is [x] and
    every other label reads as before. *)
Theorem setitem_getitem (v : Bayes) (s : string) (x y : Qc) :
  __getitem__ v (Label s) = Ok y →
  ∃ k, labels_index (labels v) s = Ok k ∧
    __setitem__ (Label s) x v =
      (Ok tt, {| odds := <[k := x]> (odds v); labels := labels v |}) ∧
    ∀ s', __getitem__ {| odds := <[k := x]> (odds v); labels := labels v |} (Label s') =
          if decide (s' = s) then Ok x else __getitem__ v (Label s').
Proof.
  cbn [__getitem__]. destruct (labels_index (labels v) s) as [k|e] eqn:Hk; [|done].
  cbn [mbind result_bind]. rewrite list_getitem_nat.
  destruct (odds v !! k) as [y'|] eqn:Hy; [|done]. intros _.
  apply lookup_lt_Some in Hy.
  exists k. split; [done|]. split.
  - cbn [__setitem__]. unfold mbind, method_bind, reading. rewrite Hk.
    unfold list_setitem. by rewrite py_position_nat, decide_True.
  - intros s'. cbn [labels]. destruct (decide (s' = s)) as [->|Hne].
    + rewrite Hk. cbn [mbind result_bind]. rewrite list_getitem_nat. cbn [odds].
      by rewrite list_lookup_insert_eq.
    + destruct (labels_index (labels v) s') as [k'|e] eqn:Hk'; [|done].
      cbn [mbind result_bind]. rewrite !list_getitem_nat. cbn [odds].
      rewrite list_lookup_insert_ne; [done|].
      intros ->. apply Hne. by eapply labels_index_inj.
Qed.
Lemma __mul___Ok (v o : Bayes) (other : odds_like) :
  (labels v = [] → odds v = []) → _cast v other = Ok o →
  __mul__ v other = Ok {| odds := zip_with Qcmult (odds v) (odds o); labels := labels v |}.
Proof.
  intros Hlab Ho. unfold __mul__. rewrite Ho. cbn [mbind result_bind].
  rewrite _cast_Seq, py_or_labels; [done|].
  intros E. by rewrite length_zip_with, (Hlab E).
Qed.

(** ** Rows that are dictionaries *)


Lemma getitems_Dict (m : gmap string Qc) (ls : list string) :
  (∀ l, l ∈ ls → is_Some (m !! l)) →
  ∃ vs, getitems (Dict m) ls = Ok vs ∧ Forall2 (λ l x, m !! l = Some x) ls vs.
Proof.
  induction ls as [|l ls IH]; intros Hall; [by exists []|].
  destruct (Hall l) as [x Hx]; [left|].
  destruct IH as (vs & Hvs & Hall2); [intros l' Hl'; apply Hall; by right|].
  exists (x :: vs). cbn [getitems getitem]. rewrite Hx, Hvs. split; [done|].
  by constructor.
Qed.

Lemma getitems_Dict_missing (m : gmap string Qc) (ls : list string) (l : string) :
  l ∈ ls → m !! l = None → getitems (Dict m) ls = Raise KeyError.
Proof.
  induction ls as [|l' ls IH]; intros Hin Hl; [by apply elem_of_nil in Hin|].
  cbn [getitems getitem]. destruct (m !! l') as [x|] eqn:Hx; [|done].
  apply elem_of_cons in Hin as [->|Hin]; [congruence|].
  cbn [mbind result_bind]. by rewrite IH.
Qed.

(** X17.  A dictionary row is matched by label: when it has every label of [v], the
    product has the labels of [v] and, at each position, the odds of [v]
    times what the dictionary holds for the label there. *)
Theorem mul_dict_by_label (v : Bayes) (m : gmap string Qc) :
  labels v ≠ [] → (∀ l, l ∈ labels v → is_Some (m !! l)) →
  ∃ p, __mul__ v (Mapping (Dict m)) = Ok p ∧ labels p = labels v ∧
    length (odds p) = length (odds v) `min` length (labels v) ∧
    ∀ k l w x, labels v !! k = Some l → odds v !! k = Some w → m !! l = Some x →
               odds p !! k = Some (w * x).
Proof.
  intros Hne Hall. destruct (getitems_Dict m (labels v) Hall) as (vs & Hvs & Hall2).
  assert (Ho : _cast v (Mapping (Dict m)) = Ok {| odds := vs; labels := labels v |}).
  { unfold _cast, __init__. cbn zeta. rewrite py_or_nonempty by done. rewrite Hvs.
    cbn [mbind result_bind]. by rewrite py_or_nonempty. }
  eexists. rewrite (__mul___Ok v _ _ (λ E, False_ind _ (Hne E)) Ho).
  split; [done|]. cbn [odds labels]. split; [done|]. split.
  - by rewrite length_zip_with, (Forall2_length _ _ _ Hall2).
  - intros k l w x Hl Hw Hx. rewrite lookup_zip_with, Hw. cbn.
    destruct (Forall2_lookup_l _ _ _ _ _ Hall2 Hl) as (x' & -> & Hx'). cbn. congruence.
Qed.

Lemma dict_row_missing_label_aux (v : Bayes) (m : gmap string Qc) (l : string) :
  l ∈ labels v → m !! l = None →
  __mul__ v (Mapping (Dict m)) = Raise KeyError ∧
  bayes.update (Mapping (Dict m)) v = (Raise KeyError, v) ∧
  bayesian.update (Mapping (Dict m)) v = (Raise KeyError, v).
Proof.
  intros Hin Hl.
  assert (Ho : _cast v (Mapping (Dict m)) = Raise KeyError).
  { unfold _cast, __init__. cbn zeta. rewrite py_or_nonempty.
    - by rewrite (getitems_Dict_missing m _ l).
    - intros E. rewrite E in Hin. by apply elem_of_nil in Hin. }
  rewrite bayes_update_eq, bayesian_update_eq. unfold __mul__. by rewrite Ho.
Qed.
(** X18.  A plain dictionary that lacks a label of the vector makes [*] raise
    [KeyError], and [update] too, in both files, with the vector left as it
    was. *)
Theorem dict_row_missing_label (v : Bayes) (m : gmap string Qc) (l : string) :
  l ∈ labels v → m !! l = None →
  __mul__ v (Mapping (Dict m)) = Raise KeyError ∧
  bayes.update (Mapping (Dict m)) v = (Raise KeyError, v) ∧
  bayesian.update (Mapping (Dict m)) v = (Raise KeyError, v).
Proof. apply dict_row_missing_label_aux. Qed.

(** ** A likely label is the most likely one *)

Lemma half_unique (q w p : Qc) : q + w ≤ 1 → Q2Qc 0.5 ≤ p → p < q → w < q.
Proof.
  unfold Qcle, Qclt. cbn [this Qcplus Q2Qc]. rewrite !Qred_correct. intros. lra.
Qed.

Lemma py_sum_two (l : list Qc) (k j : nat) (q w : Qc) :
  (∀ x, x ∈ l → 0 ≤ x) → k ≠ j → l !! k = Some q → l !! j = Some w →
  q + w ≤ py_sum l.
Proof.
  revert k j. induction l as [|x l IH]; intros k j Hl Hkj Hk Hj; [done|].
  rewrite py_sum_cons.
  assert (Hl' : ∀ y, y ∈ l → 0 ≤ y) by (intros y Hy; apply Hl; by right).
  assert (Hx : 0 ≤ x) by (apply Hl; left).
  destruct k as [|k], j as [|j]; cbn in Hk, Hj; try done.
  - injection Hk as ->. apply Qcplus_le_compat; [apply Qcle_refl|].
    apply py_sum_bounds; [done|]. by eapply list_elem_of_lookup_2.
  - injection Hj as ->. rewrite Qcplus_comm. apply Qcplus_le_compat; [apply Qcle_refl|].
    apply py_sum_bounds; [done|]. by eapply list_elem_of_lookup_2.
  - rewrite <- (Qcplus_0_l (q + w)). apply Qcplus_le_compat; [done|].
    apply (IH k j); [done|lia|done..].
Qed.

Lemma py_index_first (l : list Qc) (k : nat) (m : Qc) :
  l !! k = Some m → (∀ j w, (j < k)%nat → l !! j = Some w → w ≠ m) → py_index l m = Ok k.
Proof.
  revert k. induction l as [|y ys IH]; intros k Hk Hfirst; [done|].
  cbn [py_index]. destruct k as [|k].
  - injection Hk as ->. by rewrite decide_True.
  - rewrite decide_False by (by apply (Hfirst 0%nat); [lia|]).
    rewrite (IH k); [done|done|]. intros j w Hj. apply (Hfirst (S j)). lia.
Qed.

(** X19.  A label that [is_likely] with a minimum of one half or more is the one
    [most_likely] returns, for every cutoff up to that minimum, on a vector
    without negative odds. *)
Theorem is_likely_most_likely (v : Bayes) (s : string) (p cutoff : Qc) :
  (labels v = [] → odds v = []) → (∀ w, w ∈ odds v → 0 ≤ w) →
  Q2Qc 0.5 ≤ p → cutoff ≤ p →
  is_likely v (Label s) p = Ok true → most_likely v cutoff = Ok (Some s).
Proof.
  intros Hlab Hpos Hp Hcut. unfold is_likely, most_likely.
  destruct (normalized v) as [n|e] eqn:Hn; [|done]. cbn [mbind result_bind].
  cbn [__getitem__].
  destruct (labels_index (labels n) s) as [k|e] eqn:Hk; [|done]. cbn [mbind result_bind].
  rewrite list_getitem_nat. destruct (odds n !! k) as [q|] eqn:Hq; [|done].
  intros [= Hlt%bool_decide_eq_true].
  assert (Hne : odds v ≠ []).
  { intros E. rewrite (normalized_nil v E) in Hn. by injection Hn as <-. }
  destruct (normalized_probabilities_aux v n Hne Hn) as [Hsum Hn_pos].
  assert (Hln : labels n = labels v).
  { rewrite normalized_cases, decide_False in Hn by done.
    destruct (decide _); [done|]. injection Hn as <-. cbn [labels].
    apply py_or_labels. intros E. by rewrite (Hlab E). }
  assert (Hothers : ∀ j w, j ≠ k → odds n !! j = Some w → w < q).
  { intros j w Hj Hw. apply (half_unique q w p); [|done..].
    rewrite <- Hsum. apply (py_sum_two _ k j); [|done..].
    intros x Hx. by apply (Hn_pos Hpos). }
  destruct (py_max_spec (odds n)) as (m & -> & Hin & Hmax).
  { intros E. by rewrite E in Hq. }
  cbn [mbind result_bind].
  assert (m = q) as ->.
  { apply list_elem_of_lookup in Hin as [j Hj].
    destruct (decide (j = k)) as [->|Hjk]; [congruence|].
    pose proof (Hothers j m Hjk Hj) as Hmq.
    destruct (Qclt_not_le _ _ Hmq). apply Hmax. by eapply list_elem_of_lookup_2. }
  rewrite decide_True by (by eapply Qcle_lt_trans).
  rewrite (py_index_first _ k q Hq).
  - cbn [mbind result_bind]. unfold py_getitem.
    apply labels_index_Ok in Hk as [Hk _]. rewrite Hln in Hk. by rewrite Hk.
  - intros j w Hj Hw ->. apply (Qclt_not_eq q q); [|done]. apply (Hothers j q); [lia|done].
Qed.
(** ** What the constructor builds *)

#[local] Instance string_le_total : Total string_le.
Proof.
  intros s t. unfold string_le.
  destruct (String.leb_total s t) as [H|H]; rewrite H; [by left|by right].
Qed.

Lemma labels_index_elem (ls : list string) (s : string) :
  s ∈ ls → ∃ k, labels_index ls s = Ok k ∧ ls !! k = Some s.
Proof.
  induction ls as [|y ys IH]; intros Hin; [by apply elem_of_nil in Hin|].
  cbn [labels_index]. destruct (decide (y = s)) as [->|Hne]; [by exists 0%nat|].
  apply elem_of_cons in Hin as [->|Hin]; [done|].
  destruct (IH Hin) as (k & -> & Hk). by exists (S k).
Qed.

Lemma init_dict_aligned (m : gmap string Qc) :
  ∃ b, __init__ (InitDict (Dict m) None) = Ok b ∧
    labels b = sorted (map_to_list m).*1 ∧
    (∀ l, l ∈ labels b ↔ is_Some (m !! l)) ∧
    Forall2 (λ l x, m !! l = Some x) (labels b) (odds b).
Proof.
  unfold __init__. cbn zeta. cbn [keys].
  change (py_or None ?y) with y.
  set (ls := sorted (map_to_list m).*1).
  assert (Hperm : ls ≡ₚ (map_to_list m).*1) by apply merge_sort_Permutation.
  assert (Hkeys : ∀ l, l ∈ ls ↔ is_Some (m !! l)).
  { intros l. rewrite Hperm, list_elem_of_fmap. split.
    - intros [[k x] [-> Hkx%elem_of_map_to_list]]. by exists x.
    - intros [x Hx]. exists (l, x). split; [done|]. by apply elem_of_map_to_list. }
  destruct (getitems_Dict m ls) as (vs & -> & Hall2); [intros l; apply Hkeys|].
  cbn [mbind result_bind]. eexists. split; [done|]. cbn [odds labels].
  pose proof (Forall2_length _ _ _ Hall2) as Hlen.
  by rewrite py_or_labels by (intros E; by rewrite <- Hlen, E).
Qed.

(** X20.  [Bayes(dict)] has the keys of the dictionary for labels, sorted, as many
    odds as labels, and [self[key]] is the dictionary's value for every
    key. *)
Theorem init_dict_sorted (m : gmap string Qc) :
  ∃ b, __init__ (InitDict (Dict m) None) = Ok b ∧
    Sorted string_le (labels b) ∧ labels b ≡ₚ (map_to_list m).*1 ∧
    length (odds b) = length (labels b) ∧
    ∀ k x, m !! k = Some x → __getitem__ b (Label k) = Ok x.
Proof.
  destruct (init_dict_aligned m) as (b & Hb & Hl & Hkeys & Hall2).
  exists b. split; [done|]. rewrite Hl.
  split; [apply Sorted_merge_sort, _|]. split; [apply merge_sort_Permutation|].
  rewrite <- Hl. split; [symmetry; by eapply Forall2_length|].
  intros k x Hx. cbn [__getitem__].
  destruct (labels_index_elem (labels b) k) as (i & -> & Hi); [apply Hkeys; by exists x|].
  cbn [mbind result_bind]. rewrite list_getitem_nat.
  destruct (Forall2_lookup_l _ _ _ _ _ Hall2 Hi) as (x' & -> & Hx'). congruence.
Qed.

(** X21.  [Bayes] of a list of [(label, odds)] tuples has as many labels as odds,
    and [self[label]] is the odds of the first tuple with that label. *)
Theorem init_pairs_lookup (value : list (string * Qc)) :
  ∃ b, __init__ (InitPairs value) = Ok b ∧
    length (odds b) = length (labels b) ∧
    ∀ i k x, value !! i = Some (k, x) →
      (∀ j, (j < i)%nat → value.*1 !! j ≠ Some k) →
      __getitem__ b (Label k) = Ok x.
Proof.
  unfold __init__. eexists. split; [done|]. cbn [odds labels].
  rewrite py_or_labels by (intros E; by rewrite <- (length_fmap fst), E).
  split; [by rewrite !length_fmap|].
  intros i k x Hi Hfirst. cbn [__getitem__ labels].
  rewrite (labels_index_first _ i k); [|by rewrite list_lookup_fmap, Hi|done].
  cbn [mbind result_bind]. rewrite list_getitem_nat. cbn [odds].
  by rewrite list_lookup_fmap, Hi.
Qed.

(** X22.  [Bayes] of a bare sequence labels the odds by their positions in decimal:
    [self[str(k)]] is the [k]-th of them, and raises [ValueError] when there
    is no such position. *)
Theorem init_seq_default_labels (value : list Qc) (k : nat) :
  ∃ b, __init__ (InitSeq value None) = Ok b ∧
    labels b = pretty <$> seq 0 (length value) ∧
    __getitem__ b (Label (pretty k)) =
      match value !! k with Some x => Ok x | None => Raise ValueError end.
Proof.
  unfold __init__. change (py_or None ?y) with y.
  eexists. split; [done|]. cbn [odds labels].
  split; [done|]. cbn [__getitem__ labels]. unfold default_labels.
  destruct (value !! k) as [x|] eqn:Hk.
  - pose proof (lookup_lt_Some _ _ _ Hk) as Hlt.
    rewrite (labels_index_first _ k (pretty k)).
    + cbn [mbind result_bind]. rewrite list_getitem_nat. cbn [odds]. by rewrite Hk.
    + rewrite list_lookup_fmap, lookup_seq_lt by done. done.
    + intros j Hj. rewrite list_lookup_fmap, lookup_seq_lt by lia. cbn.
      intros [= E%(inj pretty)]. lia.
  - apply lookup_ge_None in Hk. rewrite labels_index_unknown; [done|].
    intros [j [E%(inj pretty) Hj%elem_of_seq]]%list_elem_of_fmap. lia.
Qed.
(** ** The Gaussian distribution of a sample *)

Lemma Qc_of_nat_eq_0 (n : nat) : Qc_of_Z (Z.of_nat n) = 0 ↔ n = 0%nat.
Proof. rewrite <- Z2Qc_inj_0, Z2Qc_inj_iff. lia. Qed.

Lemma Qc_square_nonneg (x : Qc) : 0 ≤ x ^ 2.
Proof.
  unfold Qcle. cbn [Qcpower this Qcmult Q2Qc]. rewrite !Qred_correct.
  change (this 1) with 1%Q. nra.
Qed.

Lemma Qc_square_eq_0 (x : Qc) : x ^ 2 = 0 → x = 0.
Proof.
  cbn [Qcpower]. rewrite Qcmult_1_r. intros H.
  by destruct (Qcmult_integral _ _ H).
Qed.

Lemma py_sum_zero (l : list Qc) :
  (∀ w, w ∈ l → 0 ≤ w) → py_sum l = 0 → ∀ w, w ∈ l → w = 0.
Proof.
  intros Hpos Hsum w Hw. apply Qcle_antisym; [|by apply Hpos].
  rewrite <- Hsum. by apply py_sum_bounds.
Qed.

Lemma py_sum_all_zero (l : list Qc) : (∀ w, w ∈ l → w = 0) → py_sum l = 0.
Proof.
  induction l as [|x l IH]; intros Hl; [done|].
  rewrite py_sum_cons, (Hl x), IH; [ring| |left]. intros w Hw. apply Hl. by right.
Qed.

Lemma gaussian_distribution_short (values : list Qc) :
  (length values < 2)%nat →
  bayesian.gaussian_distribution values = Raise ZeroDivisionError.
Proof.
  intros Hlen. unfold bayesian.gaussian_distribution. cbn zeta.
  destruct values as [|x [|y values]]; cbn in Hlen; [done| |lia].
  cbn [length]. change (Qc_of_Z (Z.of_nat 1)) with (Qc_of_Z 1). rewrite Z2Qc_inj_1.
  rewrite py_div_ok by apply Q_apart_0_1. cbn [mbind result_bind].
  replace (1 - 1) with 0 by ring. by rewrite py_div_zero.
Qed.

(** X23.  [gaussian_distribution] raises [ZeroDivisionError] on fewer than two
    values. *)
Theorem gaussian_distribution_few (values : list Qc) :
  (length values < 2)%nat →
  bayesian.gaussian_distribution values = Raise ZeroDivisionError.
Proof. apply gaussian_distribution_short. Qed.

Lemma gaussian_distribution_Ok (values : list Qc) :
  (2 ≤ length values)%nat →
  let n := Qc_of_Z (Z.of_nat (length values)) in
  let mean := py_sum values / n in
  n ≠ 0 ∧ 0 < n - 1 ∧
  bayesian.gaussian_distribution values =
    Ok (mean, py_sum ((λ value, (value - mean) ^ 2) <$> values) / (n - 1)).
Proof.
  intros Hlen n mean.
  assert (Hn : n ≠ 0) by (unfold n; rewrite Qc_of_nat_eq_0; lia).
  assert (Hn1 : 0 < n - 1).
  { unfold n. rewrite <- Z2Qc_inj_1, <- Z2Qc_inj_sub, <- Z2Qc_inj_0, <- Z2Qc_inj_lt. lia. }
  split; [done|]. split; [done|].
  unfold bayesian.gaussian_distribution. cbn zeta. fold n.
  rewrite py_div_ok by done. cbn [mbind result_bind]. fold mean.
  by rewrite py_div_ok by (by apply not_symmetry, Qclt_not_eq).
Qed.

(** X24.  When [gaussian_distribution] returns, it was given two values or
    more, and the variance it returns is not negative. *)
Theorem gaussian_distribution_spec (values : list Qc) (mean variance : Qc) :
  bayesian.gaussian_distribution values = Ok (mean, variance) →
  (2 ≤ length values)%nat ∧ 0 ≤ variance.
Proof.
  destruct (decide (length values < 2)%nat) as [Hlt|Hlen].
  { by rewrite gaussian_distribution_short. }
  apply Nat.nlt_ge in Hlen.
  destruct (gaussian_distribution_Ok values Hlen) as (Hn & Hn1 & ->).
  intros [= _ <-]. split; [done|].
  apply Qcdiv_nonneg; [|done]. apply py_sum_nonneg.
  intros w [x [-> _]]%list_elem_of_fmap. apply Qc_square_nonneg.
Qed.

(** ** Classification by events *)

Lemma row_positive_getitem (row : defaultdict Qc) (k : string) :
  row_positive row →
  0 < (dd_getitem row k).1 ∧ row_positive (dd_getitem row k).2.
Proof.
  intros [Hd Hi]. unfold dd_getitem.
  destruct (dd_items row !! k) as [x|] eqn:Hx; cbn [fst snd].
  - split; [by eapply Hi|done].
  - split; [done|]. split; [done|]. cbn [dd_setitem dd_items].
    intros k' x'. rewrite lookup_insert. destruct (decide (k = k')); [by intros [= <-]|apply Hi].
Qed.

Lemma getitems_DefaultDict (row : defaultdict Qc) (ls : list string) :
  row_positive row →
  ∃ vs, getitems (DefaultDict row) ls = Ok vs ∧ length vs = length ls ∧
        ∀ x, x ∈ vs → 0 < x.
Proof.
  revert row. induction ls as [|l ls IH]; intros row Hrow.
  - exists []. split; [done|]. split; [done|]. intros x Hx. by apply elem_of_nil in Hx.
  - destruct (row_positive_getitem row l Hrow) as [Hx Hrow'].
    cbn [getitems getitem]. destruct (dd_getitem row l) as [x row'].
    destruct (IH row' Hrow') as (vs & -> & Hlen & Hvs).
    exists (x :: vs). split; [done|]. split; [by rewrite !length_cons, Hlen|].
    intros y [->|Hy]%elem_of_cons; [done|by apply Hvs].
Qed.

Lemma increment_positive (class_ event : string) (t : defaultdict (defaultdict Qc)) :
  table_positive t → table_positive (bayesian.increment class_ t event).
Proof.
  intros [Hok Hpos].
  destruct (increment_entry class_ event t event class_ Hok) as [Hok' _].
  split; [done|]. intros ev row.
  destruct (increment_items class_ event t) as [_ Hitems]. cbn zeta in Hitems.
  rewrite Hitems. destruct (decide (event = ev)) as [->|Hne]; [|apply Hpos].
  intros [= <-]. cbn [default_factory dd_items].
  assert (Hrow : row_positive (default (default_factory t) (dd_items t !! ev))).
  { destruct (dd_items t !! ev) as [row|] eqn:E; cbn; [by eapply Hpos|].
    destruct Hok as [-> _]. split; [apply small_pos|]. intros k x. cbn.
    by rewrite lookup_empty. }
  destruct Hrow as [Hd Hi]. split; [done|]. cbn [dd_items].
  intros k x. rewrite lookup_insert. destruct (decide (class_ = k)) as [->|]; [|apply Hi].
  intros [= <-]. apply Qcplus_nonneg_pos; [|reflexivity]. apply Qclt_le_weak.
  destruct (dd_items (default _ _) !! k) as [y|] eqn:E; cbn; [by eapply Hi|done].
Qed.

Lemma foldl_positive {A} (f : defaultdict (defaultdict Qc) → A → defaultdict (defaultdict Qc))
    (l : list A) (t : defaultdict (defaultdict Qc)) :
  (∀ t a, table_positive t → table_positive (f t a)) →
  table_positive t → table_positive (foldl f t l).
Proof.
  intros Hf. revert t. induction l as [|a l IH]; intros t Ht; [done|].
  cbn [foldl]. by apply IH, Hf.
Qed.

Lemma extract_events_odds_positive {instance : Type}
    (classes_instances : gmap string (list instance))
    (event_extractor : instance → list string) :
  table_positive (bayesian.extract_events_odds classes_instances event_extractor).
Proof.
  unfold bayesian.extract_events_odds. apply foldl_positive.
  - intros t [class_ instances] Ht. apply foldl_positive; [|done].
    intros t' i Ht'. apply foldl_positive; [|done].
    intros t'' event Ht''. by apply increment_positive.
  - split; [apply new_events_odds_ok|]. intros event row. cbn. by rewrite lookup_empty.
Qed.

Lemma py_sum_pos (l : list Qc) : l ≠ [] → (∀ w, w ∈ l → 0 < w) → 0 < py_sum l.
Proof.
  destruct l as [|x l]; [done|]. intros _ Hl. rewrite py_sum_cons.
  apply Qcplus_pos_nonneg; [apply Hl; left|].
  apply py_sum_nonneg. intros w Hw. apply Qclt_le_weak, Hl. by right.
Qed.

Lemma Qcdiv_pos (x y : Qc) : 0 < x → 0 < y → 0 < x / y.
Proof.
  intros Hx Hy. unfold Qcdiv. replace 0 with (0 * / y) by ring.
  apply Qcmult_lt_compat_r; [by apply Qcinv_pos|done].
Qed.

Lemma zip_with_Qcmult_pos (a b : list Qc) :
  (∀ w, w ∈ a → 0 < w) → (∀ w, w ∈ b → 0 < w) →
  ∀ w, w ∈ zip_with Qcmult a b → 0 < w.
Proof.
  intros Ha Hb w (x & y & -> & Hx & Hy)%elem_of_zip_with.
  replace 0 with (0 * y) by ring. apply Qcmult_lt_compat_r; [by apply Hb|by apply Ha].
Qed.

(** The vectors [classify] works on: labelled by [ls], one positive weight
    for each label. *)
Lemma update_row_positive (ls : list string) (row : defaultdict Qc) (b : Bayes) :
  ls ≠ [] → row_positive row →
  labels b = ls → length (odds b) = length ls → (∀ w, w ∈ odds b → 0 < w) →
  ∃ b', bayesian.update (Mapping (DefaultDict row)) b = (Ok tt, b') ∧
    labels b' = ls ∧ length (odds b') = length ls ∧ ∀ w, w ∈ odds b' → 0 < w.
Proof.
  intros Hne Hrow Hl Hlen Hpos.
  destruct (getitems_DefaultDict row ls Hrow) as (vs & Hvs & Hlenvs & Hposvs).
  rewrite bayesian_update_eq. unfold _cast, __init__. cbn zeta.
  rewrite Hl, py_or_nonempty, Hvs by done. cbn [mbind result_bind odds].
  set (product := zip_with Qcmult (odds b) vs).
  assert (Hlenp : length product = length ls).
  { unfold product. rewrite length_zip_with. lia. }
  assert (Hposp : ∀ w, w ∈ product → 0 < w) by by apply zip_with_Qcmult_pos.
  assert (Hsum : 0 < py_sum product).
  { apply py_sum_pos; [|done]. intros E. rewrite E in Hlenp. by destruct ls. }
  rewrite mapM_div_ok by (by apply not_symmetry, Qclt_not_eq).
  eexists. split; [done|]. cbn [odds labels]. split; [done|].
  split; [by rewrite length_fmap|].
  intros w [x [-> Hx]]%list_elem_of_fmap. apply Qcdiv_pos; [by apply Hposp|done].
Qed.

Lemma update_from_events_positive (ls : list string) (t : defaultdict (defaultdict Qc))
    (events : list string) (b : Bayes) :
  ls ≠ [] → table_positive t →
  labels b = ls → length (odds b) = length ls → (∀ w, w ∈ odds b → 0 < w) →
  ∃ b', bayesian.update_from_events events (bayesian.rows_of t) b = (Ok tt, b') ∧
    labels b' = ls ∧ length (odds b') = length ls ∧ ∀ w, w ∈ odds b' → 0 < w.
Proof.
  intros Hne [_ Ht]. unfold bayesian.update_from_events. revert b.
  induction events as [|event events IH]; intros b Hl Hlen Hpos; [by exists b|].
  cbn [update_from_events]. unfold mbind, method_bind, bayesian.rows_of.
  rewrite lookup_fmap. destruct (dd_items t !! event) as [row|] eqn:Hrow; cbn [fmap option_fmap option_map].
  - destruct (update_row_positive ls row b) as (b1 & -> & Hl1 & Hlen1 & Hpos1);
      [done|by eapply Ht|done..|].
    by apply IH.
  - cbn. by apply IH.
Qed.

Lemma most_likely_positive (b : Bayes) :
  odds b ≠ [] → length (odds b) = length (labels b) → (∀ w, w ∈ odds b → 0 < w) →
  ∃ label, most_likely b 0 = Ok (Some label) ∧ label ∈ labels b.
Proof.
  intros Hne Hlen Hpos.
  assert (Hsum : 0 < py_sum (odds b)) by by apply py_sum_pos.
  unfold most_likely. rewrite normalized_ok by (by apply not_symmetry, Qclt_not_eq).
  cbn [mbind result_bind odds].
  set (n := (λ i, i / py_sum (odds b)) <$> odds b).
  destruct (py_max_spec n) as (m & -> & Hin & _).
  { unfold n. by destruct (odds b). }
  cbn [mbind result_bind].
  assert (0 < m) as Hm.
  { unfold n in Hin. apply list_elem_of_fmap in Hin as [x [-> Hx]].
    apply Qcdiv_pos; [by apply Hpos|done]. }
  rewrite decide_True by done.
  destruct (py_index_spec n m Hin) as (k & -> & Hk & _). cbn [mbind result_bind].
  apply lookup_lt_Some in Hk. unfold n in Hk. rewrite length_fmap, Hlen in Hk.
  destruct (lookup_lt_is_Some_2 _ _ Hk) as [label Hlabel].
  exists label. unfold py_getitem. rewrite Hlabel. split; [done|].
  by eapply list_elem_of_lookup_2.
Qed.

Section Classification.
Context {instance : Type}.

Lemma classify_prior (classes_instances : gmap string (list instance)) :
  ∃ b, __init__ (InitDict (Dict ((λ _, 1) <$> classes_instances)) None) = Ok b ∧
    (∀ l, l ∈ labels b ↔ is_Some (classes_instances !! l)) ∧
    length (odds b) = length (labels b) ∧ ∀ w, w ∈ odds b → w = 1.
Proof.
  destruct (init_dict_aligned ((λ _, 1) <$> classes_instances))
    as (b & Hb & _ & Hkeys & Hall2).
  exists b. split; [done|]. split; [|split].
  - intros l. rewrite Hkeys, lookup_fmap. by rewrite fmap_is_Some.
  - symmetry. by eapply Forall2_length.
  - intros w [k Hk]%list_elem_of_lookup.
    destruct (Forall2_lookup_r _ _ _ _ _ Hall2 Hk) as (l & _ & Hl).
    rewrite lookup_fmap in Hl. destruct (classes_instances !! l); cbn in Hl; congruence.
Qed.

(** X26.  With a class to choose from, [classify] returns one of the classes of the
    training set, whatever the instance and the extractor: it neither raises
    nor returns [None]. *)
Theorem classify_returns_class (instance_ : instance)
    (classes_instances : gmap string (list instance))
    (extractor : instance → list string) :
  classes_instances ≠ ∅ →
  ∃ class_, bayesian.classify instance_ classes_instances extractor = Ok (Some class_) ∧
            is_Some (classes_instances !! class_).
Proof.
  intros Hne. unfold bayesian.classify. cbn zeta.
  destruct (classify_prior classes_instances) as (b & -> & Hkeys & Hlen & Hones).
  cbn [mbind result_bind].
  assert (Hls : labels b ≠ []).
  { intros E. apply Hne, map_empty. intros l.
    destruct (classes_instances !! l) eqn:El; [|done].
    assert (l ∈ labels b) as Hl by (apply Hkeys; by rewrite El).
    rewrite E in Hl. by apply elem_of_nil in Hl. }
  destruct (update_from_events_positive (labels b)
              (bayesian.extract_events_odds classes_instances extractor)
              (extractor instance_) b) as (b' & -> & Hl' & Hlen' & Hpos');
    [done|apply extract_events_odds_positive|done|done| |].
  { intros w Hw. rewrite (Hones w Hw). reflexivity. }
  cbn [mbind result_bind].
  destruct (most_likely_positive b') as (label & -> & Hlabel).
  - intros E. rewrite E in Hlen'. by destruct (labels b).
  - by rewrite Hl'.
  - done.
  - exists label. split; [done|]. apply Hkeys. by rewrite <- Hl'.
Qed.

(** X27.  Without any class [classify] raises [ValueError]. *)
Theorem classify_no_class (instance_ : instance) (extractor : instance → list string) :
  bayesian.classify instance_ ∅ extractor = Raise ValueError.
Proof.
  unfold bayesian.classify, bayesian.extract_events_odds. cbn zeta.
  rewrite fmap_empty, map_to_list_empty. cbn [foldl].
  assert (__init__ (InitDict (Dict ∅) None) = Ok {| odds := []; labels := [] |}) as ->.
  { unfold __init__. cbn [keys]. by rewrite map_to_list_empty. }
  cbn [mbind result_bind].
  assert (bayesian.update_from_events (extractor instance_)
            (bayesian.rows_of bayesian.new_events_odds) {| odds := []; labels := [] |}
          = (Ok tt, {| odds := []; labels := [] |})) as ->; [|done].
  unfold bayesian.update_from_events, bayesian.rows_of. cbn [bayesian.new_events_odds dd_items].
  rewrite fmap_empty.
  induction (extractor instance_) as [|event events IH]; [done|].
  cbn [update_from_events]. by rewrite lookup_empty.
Qed.
End Classification.
(** ** The Gaussian classifier *)

Lemma collect_items (l : list (string * Qc)) (acc : gmap string (list Qc)) (p : string) :
  NoDup l.*1 →
  foldl (λ acc '(property, value), <[property := default [] (acc !! property) ++ [value]]> acc)
    acc l !! p =
  match (list_to_map l : gmap string Qc) !! p with
  | Some v => Some (default [] (acc !! p) ++ [v])
  | None => acc !! p
  end.
Proof.
  revert acc. induction l as [|[k v] l IH]; intros acc Hnd; [done|].
  apply NoDup_cons in Hnd as [Hk Hnd]. cbn [foldl list_to_map foldr uncurry fst snd].
  fold (list_to_map (M:=gmap string Qc) l).
  rewrite (IH _ Hnd). rewrite !lookup_insert.
  destruct (decide (k = p)) as [->|Hne]; [|done].
  by rewrite (not_elem_of_list_to_map_1 _ _ Hk).
Qed.

Lemma collect_lookup (acc : gmap string (list Qc)) (properties : gmap string Qc) (p : string) :
  bayesian.collect acc properties !! p =
  match properties !! p with
  | Some v => Some (default [] (acc !! p) ++ [v])
  | None => acc !! p
  end.
Proof.
  unfold bayesian.collect. rewrite collect_items by apply NoDup_fst_map_to_list.
  by rewrite list_to_map_to_list.
Qed.

Lemma foldl_collect_lookup (population : list (gmap string Qc))
    (acc : gmap string (list Qc)) (p : string) :
  foldl bayesian.collect acc population !! p =
  match samples population p with
  | [] => acc !! p
  | vs => Some (default [] (acc !! p) ++ vs)
  end.
Proof.
  revert acc. induction population as [|properties population IH]; intros acc; [done|].
  cbn [foldl]. rewrite IH, collect_lookup. unfold samples. cbn [omap list_omap].
  fold (omap (λ properties : gmap string Qc, properties !! p) population).
  destruct (properties !! p) as [v|]; [|done].
  cbn [default from_option id].
  destruct (omap _ population) as [|v' vs]; [done|].
  by rewrite <- app_assoc.
Qed.

Lemma collected_samples (population : list (gmap string Qc)) (p : string)
    (instances : list Qc) :
  foldl bayesian.collect ∅ population !! p = Some instances ↔
  samples population p = instances ∧ instances ≠ [].
Proof.
  rewrite foldl_collect_lookup, lookup_empty.
  destruct (samples population p) as [|v vs]; cbn.
  - split; [done|]. by intros [<- ?].
  - split; [by intros [= <-]|by intros [-> _]].
Qed.

Lemma gaussian_distribution_cases (values : list Qc) :
  if decide (length values < 2)%nat
  then bayesian.gaussian_distribution values = Raise ZeroDivisionError
  else ∃ d, bayesian.gaussian_distribution values = Ok d.
Proof.
  destruct (decide _) as [H|H]; [by apply gaussian_distribution_short|].
  destruct (gaussian_distribution_Ok values) as (_ & _ & ->); [lia|]. by eexists.
Qed.

(** The loop over the properties of one class: it raises exactly when one
    of the lists has fewer than two values, and then [ZeroDivisionError]. *)
Lemma distribute_items (class_ : string) (l : list (string * list Qc))
    (acc : result (gmap string (gmap string (Qc * Qc)))) :
  let r := foldl (λ acc '(property, instances),
           properties_distributions ← acc;
           distribution ← bayesian.gaussian_distribution instances;
           Ok (<[property := <[class_ := distribution]>
                               (default ∅ (properties_distributions !! property))]>
                 properties_distributions)) acc l in
  match acc with
  | Raise e => r = Raise e
  | Ok _ =>
      (∃ d, r = Ok d ∧ ∀ p instances, (p, instances) ∈ l → (2 ≤ length instances)%nat) ∨
      (r = Raise ZeroDivisionError ∧
       ∃ p instances, (p, instances) ∈ l ∧ (length instances < 2)%nat)
  end.
Proof.
  cbn zeta. revert acc. induction l as [|[p instances] l IH]; intros acc.
  - destruct acc as [d|e]; [|done]. left. exists d. split; [done|].
    intros p instances Hin. by apply elem_of_nil in Hin.
  - cbn [foldl]. destruct acc as [d|e]; cbn [mbind result_bind]; [|apply (IH (Raise e))].
    pose proof (gaussian_distribution_cases instances) as Hg.
    destruct (decide (length instances < 2)%nat) as [Hlt|Hge].
    + rewrite Hg. cbn [mbind result_bind]. right.
      split; [apply (IH (Raise ZeroDivisionError))|]. exists p, instances. split; [left|done].
    + destruct Hg as [dist ->]. cbn [mbind result_bind].
      match goal with |- context [foldl ?f (Ok ?d') l] => specialize (IH (Ok d')) end.
      destruct IH as [(d' & -> & Hall)|[-> (p' & instances' & Hin & Hlt)]].
      * left. exists d'. split; [done|].
        intros p' instances' [[= -> ->]|Hin]%elem_of_cons; [lia|by eapply Hall].
      * right. split; [done|]. exists p', instances'. split; [by right|done].
Qed.

Lemma distribute_cases (class_ : string) (population : list (gmap string Qc))
    (acc : result (gmap string (gmap string (Qc * Qc)))) :
  match acc with
  | Raise e => bayesian.distribute class_ acc (foldl bayesian.collect ∅ population) = Raise e
  | Ok _ =>
      ((∃ d, bayesian.distribute class_ acc (foldl bayesian.collect ∅ population) = Ok d) ∧
       ∀ p, length (samples population p) ≠ 1%nat) ∨
      (bayesian.distribute class_ acc (foldl bayesian.collect ∅ population)
         = Raise ZeroDivisionError ∧
       ∃ p, length (samples population p) = 1%nat)
  end.
Proof.
  pose proof (distribute_items class_
    (map_to_list (foldl bayesian.collect ∅ population)) acc) as H.
  cbn zeta in H. unfold bayesian.distribute. destruct acc as [d0|e]; [|done].
  destruct H as [(d & -> & Hall)|[-> (p & instances & Hin & Hlt)]].
  - left. split; [by exists d|]. intros p Hp.
    destruct (samples population p) as [|v vs] eqn:E; [done|].
    assert (foldl bayesian.collect ∅ population !! p = Some (v :: vs)) as Hl
      by (by apply collected_samples).
    apply elem_of_map_to_list in Hl. apply Hall in Hl. cbn in *. lia.
  - right. split; [done|]. exists p.
    apply elem_of_map_to_list, collected_samples in Hin as [-> Hne].
    destruct instances as [|v [|v' vs]]; cbn in *; [done|done|lia].
Qed.

Lemma properties_distributions_items (l : list (string * list (gmap string Qc)))
    (acc : result (gmap string (gmap string (Qc * Qc)))) :
  let r := foldl (λ acc '(class_, population),
                    bayesian.distribute class_ acc (foldl bayesian.collect ∅ population))
             acc l in
  match acc with
  | Raise e => r = Raise e
  | Ok _ =>
      ((∃ d, r = Ok d) ∧
       ∀ c population p, (c, population) ∈ l → length (samples population p) ≠ 1%nat) ∨
      (r = Raise ZeroDivisionError ∧
       ∃ c population p, (c, population) ∈ l ∧ length (samples population p) = 1%nat)
  end.
Proof.
  cbn zeta. revert acc. induction l as [|[c population] l IH]; intros acc.
  - destruct acc as [d|e]; [|done]. left. split; [by exists d|].
    intros c population p Hin. by apply elem_of_nil in Hin.
  - cbn [foldl]. pose proof (distribute_cases c population acc) as Hd.
    destruct acc as [d|e].
    + destruct Hd as [[[d' Hd'] Hall]|[Hd' [p Hp]]]; rewrite Hd'.
      * specialize (IH (Ok d')). cbn in IH.
        destruct IH as [[Hok Hall']|[Hr (c' & pop' & p' & Hin & Hp')]].
        -- left. split; [done|].
           intros c' pop' p' [[= -> ->]|Hin]%elem_of_cons; [apply Hall|by eapply Hall'].
        -- right. split; [done|]. exists c', pop', p'. split; [by right|done].
      * right. split; [apply (IH (Raise ZeroDivisionError))|].
        exists c, population, p. split; [left|done].
    + rewrite Hd. apply (IH (Raise e)).
Qed.

Lemma properties_distributions_cases
    (classes_population : gmap string (list (gmap string Qc))) :
  ((∃ d, bayesian.properties_distributions classes_population = Ok d) ∧
   ∀ c population p, classes_population !! c = Some population →
                     length (samples population p) ≠ 1%nat) ∨
  (bayesian.properties_distributions classes_population = Raise ZeroDivisionError ∧
   ∃ c population p, classes_population !! c = Some population ∧
                     length (samples population p) = 1%nat).
Proof.
  pose proof (properties_distributions_items (map_to_list classes_population) (Ok ∅)) as H.
  cbn zeta in H. unfold bayesian.properties_distributions.
  destruct H as [[Hok Hall]|[Hr (c & population & p & Hin & Hp)]].
  - left. split; [done|]. intros c population p Hc. apply (Hall c).
    by apply elem_of_map_to_list.
  - right. split; [done|]. exists c, population, p. split; [|done].
    by apply elem_of_map_to_list.
Qed.

(** X28.  [properties_distributions] raises [ZeroDivisionError] exactly when a class
    has a property with a single value among its records. *)
Theorem properties_distributions_raises
    (classes_population : gmap string (list (gmap string Qc))) :
  bayesian.properties_distributions classes_population = Raise ZeroDivisionError ↔
  ∃ c population p, classes_population !! c = Some population ∧
                    length (samples population p) = 1%nat.
Proof.
  destruct (properties_distributions_cases classes_population)
    as [[[d Hd] Hall]|[Hr Hex]]; rewrite ?Hd, ?Hr.
  - split; [done|]. intros (c & population & p & Hc & Hp).
    by destruct (Hall c population p Hc).
  - done.
Qed.

(** X29.  When a class has a property with a single value among its records,
    [classify_normal] raises [ZeroDivisionError] for every instance. *)
Theorem classify_normal_single_sample (exp sqrt : Qc → Qc) (pi : Qc)
    (instance_ : gmap string Qc)
    (classes_instances : gmap string (list (gmap string Qc)))
    (c p : string) (population : list (gmap string Qc)) :
  classes_instances !! c = Some population → length (samples population p) = 1%nat →
  bayesian.classify_normal exp sqrt pi instance_ classes_instances
    = Raise ZeroDivisionError.
Proof.
  intros Hc Hp. unfold bayesian.classify_normal.
  destruct (properties_distributions_cases classes_instances)
    as [[_ Hall]|[-> _]]; [|done].
  by destruct (Hall c population p Hc).
Qed.

(** X30.  With a class to choose from, [classify_normal] raises [KeyError] on an
    instance whose one property the distributions have no entry for. *)
Theorem classify_normal_unknown_property (exp sqrt : Qc → Qc) (pi : Qc)
    (classes_instances : gmap string (list (gmap string Qc)))
    (d : gmap string (gmap string (Qc * Qc))) (p : string) (x : Qc) :
  classes_instances ≠ ∅ →
  bayesian.properties_distributions classes_instances = Ok d → d !! p = None →
  bayesian.classify_normal exp sqrt pi {[ p := x ]} classes_instances = Raise KeyError.
Proof.
  intros Hne Hd Hp. unfold bayesian.classify_normal. rewrite Hd. cbn [mbind result_bind].
  destruct (init_dict_aligned ((λ _, Q2Qc 0.5) <$> classes_instances))
    as (b & -> & _ & Hkeys & _).
  cbn [mbind result_bind]. rewrite map_to_list_singleton.
  assert (bayesian.for_each_property exp sqrt pi d [(p, x)] b =
          match bayesian.update (Mapping (Dict ∅)) b with
          | (Ok _, b') => (Ok tt, b')
          | (Raise e, b') => (Raise e, b')
          end) as ->.
  { cbn [bayesian.for_each_property]. unfold mbind, method_bind, reading.
    rewrite Hp. unfold bayesian.likelihoods. cbn [default from_option id].
    by rewrite map_to_list_empty. }
  assert (∃ l, l ∈ labels b) as [l Hl].
  { destruct (map_choose _ Hne) as (l & pop & Hpop). exists l. apply Hkeys.
    by rewrite lookup_fmap, Hpop. }
  destruct (dict_row_missing_label_aux b ∅ l Hl (lookup_empty l)) as (_ & _ & ->).
  done.
Qed.
(** ** The further properties at concrete inputs *)

Lemma returns_value_of {A} (d : A) (r : result A) : returns r = true → r = Ok (value_of d r).
Proof. by destruct r. Defined.


(** X1 at the cancer prior *)
Lemma normalized_probabilities_cancer :
  Forall (λ p, 0 ≤ p ∧ p ≤ 1) (odds (value_of cancer_prior (normalized cancer_prior))).
Proof.
  apply Forall_forall. apply (normalized_probabilities cancer_prior).
  - apply returns_value_of. vm_compute. reflexivity.
  - intros w [->|[->|[]%elem_of_nil]%elem_of_cons]%elem_of_cons; vm_compute; discriminate.
Defined.

(** X4 at [zeros] *)
Lemma most_likely_zero_sum_zeros :
  most_likely zeros 0 =
  Raise (if decide (odds zeros = []) then ValueError else ZeroDivisionError).
Proof. apply (most_likely_zero_sum zeros 0). reflexivity. Defined.

(** X5 and X6 at a certainty that meets contrary evidence *)
Lemma update_zero_product_certain :
  bayesian.update contrary certain = (Raise ZeroDivisionError, certain) ∧
  bayes.update contrary certain =
    (Ok tt, {| odds := zip_with Qcmult (odds certain) [0; 1]; labels := labels certain |}).
Proof.
  apply (update_zero_product contrary certain {| odds := [0; 1]; labels := labels certain |});
    [reflexivity|discriminate|reflexivity].
Defined.


(** X7: three odds against a vector of two *)
Lemma update_truncates_fair :
  length (odds (bayes.update halves fair).2) = length (odds fair) `min` 3 ∧
  labels (bayes.update halves fair).2 = labels fair.
Proof.
  apply (update_truncates [Q2Qc 0.5; Q2Qc 0.5; Q2Qc 0.5] fair).
  left. apply method_Ok_pair. vm_compute. reflexivity.
Defined.

(** X12, X13 and X14 at the cancer prior *)
Lemma getitem_label_position_cancer :
  __getitem__ cancer_prior (Label "cancer") = __getitem__ cancer_prior (Position 1).
Proof.
  apply (getitem_label_position cancer_prior 1 "cancer"); [reflexivity|].
  intros [|j] Hj; [discriminate|lia].
Defined.

Lemma unknown_label_cancer :
  __getitem__ cancer_prior (Label "flu") = Raise ValueError ∧
  __setitem__ (Label "flu") 1 cancer_prior = (Raise ValueError, cancer_prior).
Proof.
  apply (unknown_label cancer_prior "flu" 1).
  apply (bool_decide_unpack _). vm_compute. exact I.
Defined.

Lemma setitem_getitem_cancer :
  ∃ k, labels_index (labels cancer_prior) "cancer" = Ok k ∧
    __setitem__ (Label "cancer") 1 cancer_prior =
      (Ok tt, {| odds := <[k := 1]> (odds cancer_prior); labels := labels cancer_prior |}) ∧
    ∀ s', __getitem__ {| odds := <[k := 1]> (odds cancer_prior);
                         labels := labels cancer_prior |} (Label s') =
          if decide (s' = "cancer") then Ok 1 else __getitem__ cancer_prior (Label s').
Proof. apply (setitem_getitem cancer_prior "cancer" 1 (Q2Qc 0.01)). reflexivity. Defined.

(** X17 and X18: [v12] against a dictionary in another order, and against
    one without "b" *)
Lemma mul_dict_by_label_v12 :
  ∃ p, __mul__ v12 (Mapping (Dict {[ "b" := Q2Qc 4; "a" := Q2Qc 3 ]})) = Ok p ∧
    labels p = labels v12 ∧
    length (odds p) = length (odds v12) `min` length (labels v12) ∧
    ∀ k l w x, labels v12 !! k = Some l → odds v12 !! k = Some w →
               ({[ "b" := Q2Qc 4; "a" := Q2Qc 3 ]} : gmap string Qc) !! l = Some x →
               odds p !! k = Some (w * x).
Proof.
  apply (mul_dict_by_label v12 {[ "b" := Q2Qc 4; "a" := Q2Qc 3 ]}); [discriminate|].
  intros l [->|[->|[]%elem_of_nil]%elem_of_cons]%elem_of_cons; vm_compute; by eexists.
Defined.

Lemma dict_row_missing_label_v12 :
  __mul__ v12 (Mapping (Dict {[ "a" := Q2Qc 3 ]})) = Raise KeyError ∧
  bayes.update (Mapping (Dict {[ "a" := Q2Qc 3 ]})) v12 = (Raise KeyError, v12) ∧
  bayesian.update (Mapping (Dict {[ "a" := Q2Qc 3 ]})) v12 = (Raise KeyError, v12).
Proof.
  apply (dict_row_missing_label v12 {[ "a" := Q2Qc 3 ]} "b").
  - apply elem_of_cons. right. apply elem_of_cons. by left.
  - vm_compute. reflexivity.
Defined.

(** X19 at the cancer prior *)
Lemma is_likely_most_likely_cancer :
  most_likely cancer_prior 0 = Ok (Some "not cancer").
Proof.
  apply (is_likely_most_likely cancer_prior "not cancer" (Q2Qc 0.5) 0).
  - discriminate.
  - intros w [->|[->|[]%elem_of_nil]%elem_of_cons]%elem_of_cons; vm_compute; discriminate.
  - vm_compute. discriminate.
  - vm_compute. discriminate.
  - vm_compute. reflexivity.
Defined.

(** X23 and X24 on small samples *)
Lemma gaussian_distribution_few_one :
  bayesian.gaussian_distribution [Q2Qc 180] = Raise ZeroDivisionError.
Proof. apply (gaussian_distribution_few [Q2Qc 180]). simpl. lia. Defined.

Lemma gaussian_distribution_spec_four :
  (2 ≤ length [Q2Qc 1; Q2Qc 2; Q2Qc 3; Q2Qc 6])%nat ∧
  0 ≤ (value_of (0, 0)
         (bayesian.gaussian_distribution [Q2Qc 1; Q2Qc 2; Q2Qc 3; Q2Qc 6])).2.
Proof.
  apply (gaussian_distribution_spec [Q2Qc 1; Q2Qc 2; Q2Qc 3; Q2Qc 6]
           (value_of (0, 0)
              (bayesian.gaussian_distribution [Q2Qc 1; Q2Qc 2; Q2Qc 3; Q2Qc 6])).1).
  rewrite <- surjective_pairing. apply returns_value_of. vm_compute. reflexivity.
Defined.

(** X26 on the training set of two classes *)
Lemma classify_returns_class_training :
  ∃ class_, bayesian.classify ["buy"; "viagra"] training words = Ok (Some class_) ∧
            is_Some (training !! class_).
Proof.
  apply (classify_returns_class ["buy"; "viagra"] training words).
  intros H. apply (f_equal (λ m, m !! "spam")) in H. vm_compute in H. discriminate H.
Defined.

(** X29 and X30 on the populations *)
Lemma classify_normal_single_sample_weight :
  bayesian.classify_normal (λ x, x) (λ x, x) (Q2Qc 3) {[ "h" := Q2Qc 185 ]}
    {[ "tall" := one_weight ]} = Raise ZeroDivisionError.
Proof.
  apply (classify_normal_single_sample (λ x, x) (λ x, x) (Q2Qc 3) {[ "h" := Q2Qc 185 ]}
           {[ "tall" := one_weight ]} "tall" "w" one_weight).
  - vm_compute. reflexivity.
  - vm_compute. reflexivity.
Defined.

Lemma classify_normal_unknown_property_heights :
  bayesian.classify_normal (λ x, x) (λ x, x) (Q2Qc 3) {[ "z" := Q2Qc 185 ]} heights
  = Raise KeyError.
Proof.
  apply (classify_normal_unknown_property (λ x, x) (λ x, x) (Q2Qc 3) heights
           (value_of ∅ (bayesian.properties_distributions heights)) "z" (Q2Qc 185)).
  - intros H. apply (f_equal (λ m, m !! "tall")) in H. vm_compute in H. discriminate H.
  - apply returns_value_of. vm_compute. reflexivity.
  - vm_compute. reflexivity.
Defined.
